(** * The MPS daemon manager of the device plugin, and its release script

    The first module embeds the part of [hack/prepare-release.sh] that
    checks a version and reads the options; its properties are at the end
    of the file. The second module is a shallow embedding of
    [cmd/mps-control-daemon/mps/manager.go]:
    the [Manager] interface with its two implementations, the
    constructor [New], and the loop of [manager.Daemons] that decides
    for which resource managers an MPS control daemon is created.

    The package [rm] (devices, annotated IDs, resource managers), the
    configuration API ([spec.Config]), [NewDaemon], [ContainerRoot], the
    options and [mpsDevice.assertReplicas] live in other files of the
    repository; what the manager needs of them is either taken as a
    parameter of the section below or modelled from the specification,
    and marked as such. *)

From Stdlib Require Import List String Ascii ZArith NArith Lia Bool.
Import ListNotations.
Local Open Scope string_scope.
Local Open Scope list_scope.

(** * The release script

    [hack/prepare-release.sh]: the function [validate_semver] and the loop
    that reads the options of the command line. The script is a shell
    script; its variables are global, and the test [[ s =~ r ]] leaves its
    result in the array [BASH_REMATCH], which every such test replaces. *)
Module Release.
Local Open Scope string_scope.

(** ** Extended regular expressions

    The expressions of the script, read with the bytes ordered as in the
    C locale. [Group n r] is the [n]-th parenthesised subexpression;
    [Empty] matches nothing and only arises as a derivative. All the
    expressions of the script are anchored at both ends, so that a test
    is a match of the whole string. *)
Inductive regex : Type :=
| Empty
| Eps
| Chr (set : ascii -> bool)
| Cat (r1 r2 : regex)
| Alt (r1 r2 : regex)
| Star (r : regex)
| Group (n : nat) (r : regex).

Definition Plus (r : regex) : regex := Cat r (Star r).
Definition Opt (r : regex) : regex := Alt r Eps.

Definition lit (x : ascii) : ascii -> bool := Ascii.eqb x.

Definition range (lo hi : ascii) (c : ascii) : bool :=
  (N_of_ascii lo <=? N_of_ascii c)%N && (N_of_ascii c <=? N_of_ascii hi)%N.

(** The bracket expressions [[0-9]] and [[0-9A-Za-z-]]. *)
Definition digit : ascii -> bool := range "0" "9".

Definition identifier (c : ascii) : bool :=
  range "0" "9" c || range "A" "Z" c || range "a" "z" c || lit "-" c.

Fixpoint nullable (r : regex) : bool :=
  match r with
  | Empty => false
  | Eps => true
  | Chr _ => false
  | Cat r1 r2 => nullable r1 && nullable r2
  | Alt r1 r2 => nullable r1 || nullable r2
  | Star _ => true
  | Group _ r1 => nullable r1
  end.

Fixpoint deriv (r : regex) (c : ascii) : regex :=
  match r with
  | Empty => Empty
  | Eps => Empty
  | Chr set => if set c then Eps else Empty
  | Cat r1 r2 =>
      if nullable r1 then Alt (Cat (deriv r1 c) r2) (deriv r2 c)
      else Cat (deriv r1 c) r2
  | Alt r1 r2 => Alt (deriv r1 c) (deriv r2 c)
  | Star r1 => Cat (deriv r1 c) (Star r1)
  | Group _ r1 => deriv r1 c
  end.

(** Whether the whole string matches. *)
Fixpoint matches (r : regex) (s : string) : bool :=
  match s with
  | EmptyString => nullable r
  | String c s' => matches (deriv r c) s'
  end.

(** The ways to cut a string in two, the longest first part first. *)
Fixpoint splits (s : string) : list (string * string) :=
  match s with
  | EmptyString => [(EmptyString, EmptyString)]
  | String c s' =>
      (map (fun p => (String c (fst p), snd p)) (splits s')
       ++ [(EmptyString, s)])%list
  end.

(** The submatches, by the rule that an earlier subexpression takes the
    longest part that still lets the rest match. *)
Definition cut (r1 r2 : regex) (s : string) : option (string * string) :=
  find (fun p => matches r1 (fst p) && matches r2 (snd p)) (splits s).

Definition isEmpty (s : string) : bool :=
  match s with
  | EmptyString => true
  | String _ _ => false
  end.

(** Under a star a subexpression reports its last round. *)
Fixpoint lastRound (cap : string -> list (nat * string)) (r : regex)
         (fuel : nat) (s : string) : list (nat * string) :=
  match fuel with
  | O => []
  | S fuel' =>
      match find (fun p => negb (isEmpty (fst p)) && matches r (fst p)
                           && matches (Star r) (snd p)) (splits s) with
      | Some (a, b) => if isEmpty b then cap a else lastRound cap r fuel' b
      | None => []
      end
  end.

Fixpoint capture (r : regex) (s : string) : list (nat * string) :=
  match r with
  | Empty | Eps | Chr _ => []
  | Cat r1 r2 =>
      match cut r1 r2 s with
      | Some (a, b) => (capture r1 a ++ capture r2 b)%list
      | None => []
      end
  | Alt r1 r2 => if matches r1 s then capture r1 s else capture r2 s
  | Star r1 => lastRound (capture r1) r1 (String.length s) s
  | Group n r1 => (n, s) :: capture r1 s
  end.

Fixpoint subexpressions (r : regex) : nat :=
  match r with
  | Empty | Eps | Chr _ => 0
  | Cat r1 r2 | Alt r1 r2 => subexpressions r1 + subexpressions r2
  | Star r1 => subexpressions r1
  | Group _ r1 => S (subexpressions r1)
  end.

Fixpoint assoc (n : nat) (l : list (nat * string)) : string :=
  match l with
  | [] => EmptyString
  | (k, v) :: l' => if (k =? n)%nat then v else assoc n l'
  end.

(** The array a successful test stores: the whole match at index 0, then
    one element for each subexpression, empty when it took no part. *)
Definition rematch (r : regex) (s : string) : list string :=
  s :: map (fun n => assoc n (capture r s)) (seq 1 (subexpressions r)).

(** [semver_regex], line 38 of the script. *)
Definition semver_regex : regex :=
  Cat (Chr (lit "v"))
 (Cat (Group 1 (Plus (Chr digit)))
 (Cat (Chr (lit "."))
 (Cat (Group 2 (Plus (Chr digit)))
 (Cat (Chr (lit "."))
 (Cat (Group 3 (Plus (Chr digit)))
      (Opt (Group 4
         (Cat (Chr (lit "-"))
              (Group 5
                 (Cat (Plus (Chr identifier))
                      (Star (Group 6 (Cat (Chr (lit "."))
                                          (Plus (Chr identifier))))))))))))))).

(** The expression of the tests on [major], [minor] and [patch], line 46. *)
Definition numeric_regex : regex := Plus (Chr digit).

(** [prerelease_regex], line 54. *)
Definition prerelease_regex : regex :=
  Group 1 (Cat (Plus (Chr identifier))
               (Star (Group 2 (Cat (Chr (lit ".")) (Plus (Chr identifier)))))).

(** ** The shell

    The variables [validate_semver] reads and writes (none of them is
    declared [local] but [version]), and the lines printed. *)
Record shell : Type := mkShell {
  BASH_REMATCH : list string;
  major : string;
  minor : string;
  patch : string;
  prerelease : string;
  stdout : list string
}.

Definition set_BASH_REMATCH (v : list string) (sh : shell) : shell :=
  {| BASH_REMATCH := v; major := major sh; minor := minor sh; patch := patch sh;
     prerelease := prerelease sh; stdout := stdout sh |}.

Definition set_major (v : string) (sh : shell) : shell :=
  {| BASH_REMATCH := BASH_REMATCH sh; major := v; minor := minor sh;
     patch := patch sh; prerelease := prerelease sh; stdout := stdout sh |}.

Definition set_minor (v : string) (sh : shell) : shell :=
  {| BASH_REMATCH := BASH_REMATCH sh; major := major sh; minor := v;
     patch := patch sh; prerelease := prerelease sh; stdout := stdout sh |}.

Definition set_patch (v : string) (sh : shell) : shell :=
  {| BASH_REMATCH := BASH_REMATCH sh; major := major sh; minor := minor sh;
     patch := v; prerelease := prerelease sh; stdout := stdout sh |}.

Definition set_prerelease (v : string) (sh : shell) : shell :=
  {| BASH_REMATCH := BASH_REMATCH sh; major := major sh; minor := minor sh;
     patch := patch sh; prerelease := v; stdout := stdout sh |}.

Definition echo (line : string) (sh : shell) : shell :=
  {| BASH_REMATCH := BASH_REMATCH sh; major := major sh; minor := minor sh;
     patch := patch sh; prerelease := prerelease sh;
     stdout := (stdout sh ++ [line])%list |}.

(** An element of an array; empty when it is not set. *)
Definition element (n : nat) (a : list string) : string := nth n a EmptyString.

(** The test [[ s =~ r ]]: it replaces [BASH_REMATCH], by the submatches
    when the string matches and by the empty array when it does not. *)
Definition regex_match (s : string) (r : regex) (sh : shell) : bool * shell :=
  if matches r s then (true, set_BASH_REMATCH (rematch r s) sh)
  else (false, set_BASH_REMATCH [] sh).

(** [validate_semver], lines 36 to 67: the return status and the shell it
    leaves. The three tests of line 46 are joined by [||], so that a later
    one runs only when the earlier ones found a number. *)
Definition validate_semver (version : string) (sh : shell) : nat * shell :=
  let invalid := fun sh' => (1, echo ("Invalid SemVer format: " ++ version) sh') in
  let valid := fun sh' => (0, echo ("Valid SemVer format: " ++ version) sh') in
  let (matched, sh1) := regex_match version semver_regex sh in
  if matched then
    let sh2 := set_major (element 1 (BASH_REMATCH sh1)) sh1 in
    let sh3 := set_minor (element 2 (BASH_REMATCH sh2)) sh2 in
    let sh4 := set_patch (element 3 (BASH_REMATCH sh3)) sh3 in
    let (b1, sh5) := regex_match (major sh4) numeric_regex sh4 in
    if negb b1 then invalid sh5 else
    let (b2, sh6) := regex_match (minor sh5) numeric_regex sh5 in
    if negb b2 then invalid sh6 else
    let (b3, sh7) := regex_match (patch sh6) numeric_regex sh6 in
    if negb b3 then invalid sh7 else
    if negb (isEmpty (element 5 (BASH_REMATCH sh7))) then
      let sh8 := set_prerelease (element 5 (BASH_REMATCH sh7)) sh7 in
      let (b4, sh9) := regex_match (prerelease sh8) prerelease_regex sh8 in
      if negb b4 then invalid sh9 else valid sh9
    else valid sh7
  else invalid sh1.

(** ** The options of the command line, lines 75 to 88 *)

(** [shift n]: when fewer than [n] parameters are left the command fails
    and leaves them as they are (the script does not stop on a failing
    command). *)
Definition shift (n : nat) (args : list string) : list string :=
  if (n <=? List.length args)%nat then skipn n args else args.

(** How the loop ends: [usage] and [exit 0], or the loop is left with
    [previous_version] and the parameters that remain. *)
Inductive options : Type :=
| Usage
| Remaining (previous_version : string) (args : list string).

(** The loop goes round once for each unit of [fuel]; [None] when the fuel
    is used up before the loop is left. The patterns of the [case] hold no
    wildcard but the last: they are compared as they are written. *)
Fixpoint parse_options (fuel : nat) (previous_version : string)
         (args : list string) : option options :=
  match fuel with
  | O => None
  | S fuel' =>
      match args with
      | [] => Some (Remaining previous_version [])
      | key :: _ =>
          if (key =? "--previous-version")%string then
            parse_options fuel' (element 1 args) (shift 2 args)
          else if (key =? "--help/-h")%string then Some Usage
          else Some (Remaining previous_version args)
      end
  end.

(** ** Reading the results *)

Fixpoint every (p : ascii -> bool) (s : string) : bool :=
  match s with
  | EmptyString => true
  | String c s' => p c && every p s'
  end.

(** A number: digits, at least one. *)
Definition numeric (s : string) : Prop := s <> EmptyString /\ every digit s = true.





(** The shell after a version was found valid, with its three numbers. *)
Definition accepted (version a1 a2 a3 : string) (sh : shell) : shell :=
  {| BASH_REMATCH := [a3]; major := a1; minor := a2; patch := a3;
     prerelease := prerelease sh;
     stdout := (stdout sh ++ [("Valid SemVer format: " ++ version)%string])%list |}.

(** The shell after a version was found invalid. *)
Definition rejected (version : string) (sh : shell) : shell :=
  {| BASH_REMATCH := []; major := major sh; minor := minor sh; patch := patch sh;
     prerelease := prerelease sh;
     stdout := (stdout sh ++ [("Invalid SemVer format: " ++ version)%string])%list |}.

(** The parameters "--previous-version v" for each [v] in turn. *)
Definition optionPairs (vs : list string) : list string :=
  flat_map (fun v => ["--previous-version"; v]) vs.

(** ** Sample shells *)


(** A shell in which an earlier version was validated. *)
Definition used : shell :=
  mkShell ["0"] "0" "14" "0" EmptyString ["Valid SemVer format: v0.14.0"].

End Release.

(** * The MPS manager *)
Module Mps.

(** ** Values shared with the collaborators *)

(** Modelled from the spec: the sharing strategies of the configuration
    API ([spec.SharingStrategy...]), "an enumerated value with at least
    the members None, TimeSlicing, MPS". *)
Inductive SharingStrategy : Type :=
| SharingStrategyNone
| SharingStrategyTimeSlicing
| SharingStrategyMPS.

Definition SharingStrategy_eqb (a b : SharingStrategy) : bool :=
  match a, b with
  | SharingStrategyNone, SharingStrategyNone => true
  | SharingStrategyTimeSlicing, SharingStrategyTimeSlicing => true
  | SharingStrategyMPS, SharingStrategyMPS => true
  | _, _ => false
  end.

(** Modelled from the spec: [spec.Config] and its [Sharing] member, of
    which the manager only asks the selected strategy
    ([config.Sharing.SharingStrategy()]). *)
Record spec_Sharing : Type := mkSharing { selected : SharingStrategy }.

Definition Sharing_SharingStrategy (s : spec_Sharing) : SharingStrategy :=
  selected s.

Record spec_Config : Type := mkConfig { Sharing : spec_Sharing }.

(** Modelled from the spec: a device identifier with its "optional
    sharing annotation" ([rm.AnnotatedID]). *)
Record rm_AnnotatedID : Type := mkAnnotatedID {
  base : string;
  annotation : option string
}.

(** Go's [error] values met in this file: an error of a collaborator
    (opaque text), the error of [assertReplicas] for one device, and an
    error wrapped by [fmt.Errorf] with the verb [%w]. *)
Inductive error : Type :=
| errors_New (msg : string)
| invalidReplicas (id : rm_AnnotatedID) (replicas : Z)
| fmt_Errorf (format : string) (wrapped : error).

(** Modelled from the spec: [rm.Device], "identity, a flag indicating
    hardware partition membership, an optional sharing annotation, and a
    replica count". *)
Record rm_Device : Type := mkDevice {
  ID : rm_AnnotatedID;
  Mig : bool;
  Replicas : Z
}.

Definition IsMigDevice (d : rm_Device) : bool := Mig d.

Definition rm_Devices : Type := list rm_Device.

Definition GetIDs (ds : rm_Devices) : list rm_AnnotatedID := map ID ds.

Definition HasAnnotations (r : rm_AnnotatedID) : bool :=
  match annotation r with
  | Some _ => true
  | None => false
  end.

Definition AnnotatedIDs (ids : list rm_AnnotatedID) : list rm_AnnotatedID := ids.

(** Modelled from the spec: [rm.AnnotatedIDs.AnyHasAnnotations], true
    when some member device "carries a sharing annotation". *)
Definition AnyHasAnnotations (ids : list rm_AnnotatedID) : bool :=
  existsb HasAnnotations ids.

(** Modelled from the spec: the interface [rm.ResourceManager], a named
    resource with its ordered member devices ([Resource()], [Devices()]). *)
Record rm_ResourceManager : Type := mkResourceManager {
  Resource : string;
  Devices : rm_Devices
}.

(** Modelled from the spec: [mpsDevice.assertReplicas], "the declared
    replica count must be a positive integer"; a count that is zero or
    negative is answered with an error describing the device. *)
Definition assertReplicas (d : rm_Device) : option error :=
  if (Replicas d <=? 0)%Z then Some (invalidReplicas (ID d) (Replicas d))
  else None.

(** Modelled from the spec: a [Daemon] "references the originating
    ResourceGroup and a fixed container-root path"; [NewDaemon] is "pure,
    side-effect-free value construction". *)
Record Daemon : Type := mkDaemon {
  rm : rm_ResourceManager;
  root : string
}.

Definition NewDaemon (r : rm_ResourceManager) (rt : string) : Daemon :=
  {| rm := r; root := rt |}.

(** ** Diagnostics

    [klog] calls append records to the log; a computation that logs
    returns the records it emitted together with its value. *)
Inductive klog_arg : Type :=
| arg_string (s : string)
| arg_strategy (s : SharingStrategy).

Inductive klog_record : Type :=
| klog_InfoS (msg : string) (keysAndValues : list klog_arg)
| klog_Warning (msg : string).

Definition Logged (A : Type) : Type := (list klog_record * A)%type.

Definition ret {A : Type} (a : A) : Logged A := ([], a).

Definition bind {A B : Type} (c : Logged A) (k : A -> Logged B) : Logged B :=
  let (l1, a) := c in
  let (l2, b) := k a in
  (l1 ++ l2, b).

Definition klog (r : klog_record) : Logged unit := ([r], tt).

Arguments bind : simpl never.

Definition records {A : Type} (c : Logged A) : list klog_record := fst c.
Definition value {A : Type} (c : Logged A) : A := snd c.

Notation "x <- c ;; k" := (bind c (fun x => k))
  (at level 61, c at next level, right associativity).
Notation "c ;;; k" := (bind c (fun _ => k))
  (at level 61, right associativity).

(** What a Go call of the shape [(T, error)] hands back. *)
Definition returned (A : Type) : Type := (A * option error)%type.

(** A call either returns or panics (nil pointer dereference). *)
Inductive outcome (A : Type) : Type :=
| Returned (a : A)
| Panic.
Arguments Returned {A} a.
Arguments Panic {A}.

Definition msgNoDevices : string := "No devices associated with resource".
Definition msgNotShared : string := "Resource is not shared".
Definition msgMig : string :=
  "MPS sharing is not supported for MIG devices; skipping daemon creation".
Definition msgNotMPS : string :=
  "Sharing strategy is not MPS; skipping MPS manager creation".
Definition fmtInvalid : string := "invalid MPS configuration: %w".
Definition fmtCreate : string := "failed to create MPS manager: %w".

(** ** Reading the loop

    The conditions under which the loop of [manager.Daemons] leaves a
    resource manager out ([continue]) or leaves the function ([return]). *)

(** The two tests that end in [continue] in the outer loop. *)
Definition skipped (g : rm_ResourceManager) : bool :=
  (List.length (Devices g) =? 0)%nat
  || negb (AnyHasAnnotations (AnnotatedIDs (GetIDs (Devices g)))).

(** A device on which [assertReplicas] is called and fails. *)
Definition violating (d : rm_Device) : bool :=
  negb (IsMigDevice d) && (Replicas d <=? 0)%Z.

(** The error returned for such a device. *)
Definition replicaError (d : rm_Device) : error :=
  fmt_Errorf fmtInvalid (invalidReplicas (ID d) (Replicas d)).

(** A resource manager at which the function returns an error. *)
Definition failing (g : rm_ResourceManager) : bool :=
  negb (skipped g) && existsb violating (Devices g).

(** The resource managers the loop does not skip, in input order. *)
Definition surviving (rms : list rm_ResourceManager) : list rm_ResourceManager :=
  filter (fun g => negb (skipped g)) rms.

(** The records logged for one resource manager that does not fail. *)
Definition diagnostics (g : rm_ResourceManager) : list klog_record :=
  if (List.length (Devices g) =? 0)%nat then
    [klog_InfoS msgNoDevices [arg_string "resource"; arg_string (Resource g)]]
  else if negb (AnyHasAnnotations (AnnotatedIDs (GetIDs (Devices g)))) then
    [klog_InfoS msgNotShared
       [arg_string "resource"; arg_string "resource"; arg_string (Resource g)]]
  else
    map (fun _ => klog_Warning msgMig) (filter IsMigDevice (Devices g)).

(** ** Sample inputs *)

Definition annotated (uuid : string) : rm_AnnotatedID :=
  {| base := uuid; annotation := Some "0" |}.

Definition plain (uuid : string) : rm_AnnotatedID :=
  {| base := uuid; annotation := None |}.

(** One annotated full GPU shared twice, and a resource made of it. *)
Definition sharedGpu : rm_Device :=
  {| ID := annotated "GPU-0"; Mig := false; Replicas := 2 |}.
Definition gpu0 : rm_ResourceManager :=
  {| Resource := "gpu0"; Devices := [sharedGpu] |}.

(** A device without annotation. *)
Definition plainGpu : rm_Device :=
  {| ID := plain "GPU-1"; Mig := false; Replicas := 1 |}.
Definition gpu1 : rm_ResourceManager :=
  {| Resource := "gpu1"; Devices := [plainGpu] |}.

(** One annotated MIG device with two replicas. *)
Definition sharedMig : rm_Device :=
  {| ID := annotated "MIG-0"; Mig := true; Replicas := 2 |}.
Definition gpu0Mig : rm_ResourceManager :=
  {| Resource := "gpu0"; Devices := [sharedMig] |}.

(** An annotated full GPU with a replica count of zero. *)
Definition zeroGpu : rm_Device :=
  {| ID := annotated "GPU-2"; Mig := false; Replicas := 0 |}.
Definition gpu2 : rm_ResourceManager :=
  {| Resource := "gpu2"; Devices := [zeroGpu] |}.

(** An annotated MIG device with a replica count of zero. *)
Definition zeroMig : rm_Device :=
  {| ID := annotated "MIG-1"; Mig := true; Replicas := 0 |}.
Definition gpu3 : rm_ResourceManager :=
  {| Resource := "gpu3"; Devices := [zeroMig; sharedGpu] |}.

(** A shared resource with a MIG device, then a full GPU with a replica
    count of zero, then a valid one. *)
Definition gpu4 : rm_ResourceManager :=
  {| Resource := "gpu4"; Devices := [sharedMig; zeroGpu; sharedGpu] |}.

(** The resource "gpu2" under another name. *)
Definition gpu2Renamed : rm_ResourceManager :=
  {| Resource := "nvidia.com/gpu.shared"; Devices := [zeroGpu] |}.

(** A resource without devices. *)
Definition gpuNone : rm_ResourceManager :=
  {| Resource := "none"; Devices := [] |}.

Definition mpsConfig : spec_Config :=
  {| Sharing := {| selected := SharingStrategyMPS |} |}.

Definition timeSlicingConfig : spec_Config :=
  {| Sharing := {| selected := SharingStrategyTimeSlicing |} |}.

(** ** The manager *)

(** The collaborators of the package. The three library handles are
    opaque to it: they are only stored and passed on to
    [rm.NewNVMLResourceManagers], the external source of the resource
    managers, which may fail. [ContainerRoot] is the package constant
    handed to every daemon. *)
Class Collaborators : Type := {
  info_Interface : Type;
  nvml_Interface : Type;
  device_Interface : Type;
  NewNVMLResourceManagers :
    info_Interface -> nvml_Interface -> device_Interface ->
    option spec_Config -> returned (list rm_ResourceManager);
  ContainerRoot : string
}.

Section Manager.

Context {env : Collaborators}.

Record manager : Type := mkManager {
  infolib : info_Interface;
  nvmllib : nvml_Interface;
  devicelib : device_Interface;
  config : option spec_Config
}.

Inductive nullManager : Type := mkNullManager.

(** The interface [Manager] has exactly these two implementations. *)
Inductive Manager : Type :=
| Manager_manager (m : manager)
| Manager_nullManager (n : nullManager).

(** An [Option] is a function on a pointer to the manager: it updates it. *)
Definition Option : Type := manager -> manager.

(** The inner loop of [manager.Daemons] over the devices of one
    resource manager: [continue] on a MIG device goes on with the next
    device, a failed [assertReplicas] leaves the whole function. *)
Fixpoint rangeDevices (devices : rm_Devices) : Logged (option error) :=
  match devices with
  | [] => ret None
  | rmDevice :: rest =>
      if IsMigDevice rmDevice then
        klog (klog_Warning msgMig) ;;;
        rangeDevices rest
      else
        match assertReplicas rmDevice with
        | Some err => ret (Some (fmt_Errorf fmtInvalid err))
        | None => rangeDevices rest
        end
  end.

(** The outer loop, with the slice [daemons] built so far. *)
Fixpoint rangeResourceManagers (resourceManagers : list rm_ResourceManager)
         (daemons : list Daemon) : Logged (returned (list Daemon)) :=
  match resourceManagers with
  | [] => ret (daemons, None)
  | resourceManager :: rest =>
      if (List.length (Devices resourceManager) =? 0)%nat then
        klog (klog_InfoS msgNoDevices
                [arg_string "resource"; arg_string (Resource resourceManager)]) ;;;
        rangeResourceManagers rest daemons
      else if negb (AnyHasAnnotations
                      (AnnotatedIDs (GetIDs (Devices resourceManager)))) then
        klog (klog_InfoS msgNotShared
                [arg_string "resource"; arg_string "resource";
                 arg_string (Resource resourceManager)]) ;;;
        rangeResourceManagers rest daemons
      else
        e <- rangeDevices (Devices resourceManager) ;;
        match e with
        | Some err => ret ([], Some err)
        | None =>
            let daemon := NewDaemon resourceManager ContainerRoot in
            rangeResourceManagers rest (daemons ++ [daemon])
        end
  end.

(** What the resource-manager source answers for this manager. *)
Definition enumeration (m : manager) : returned (list rm_ResourceManager) :=
  NewNVMLResourceManagers (infolib m) (nvmllib m) (devicelib m) (config m).

Definition manager_Daemons (m : manager) : Logged (returned (list Daemon)) :=
  let (resourceManagers, err) :=
    NewNVMLResourceManagers (infolib m) (nvmllib m) (devicelib m) (config m) in
  match err with
  | Some e => ret ([], Some e)
  | None => rangeResourceManagers resourceManagers []
  end.

Definition nullManager_Daemons (m : nullManager) : Logged (returned (list Daemon)) :=
  ret ([], None).

(** Dynamic dispatch of [Manager.Daemons]. *)
Definition Daemons (m : Manager) : Logged (returned (list Daemon)) :=
  match m with
  | Manager_manager r => manager_Daemons r
  | Manager_nullManager n => nullManager_Daemons n
  end.

Definition applyOptions (opts : list Option) (m : manager) : manager :=
  fold_left (fun acc opt => opt acc) opts m.

(** The manager [New] starts from, before the options are applied. *)
Definition bare (i : info_Interface) (n : nvml_Interface) (d : device_Interface)
  : manager :=
  {| infolib := i; nvmllib := n; devicelib := d; config := None |}.

(** [New]: the configuration is reached through a pointer, which is
    nil unless an option stored one. *)
Definition New (i : info_Interface) (n : nvml_Interface) (d : device_Interface)
           (opts : list Option) : Logged (outcome (returned Manager)) :=
  let m := applyOptions opts (bare i n d) in
  match config m with
  | None => ret Panic
  | Some c =>
      let strategy := Sharing_SharingStrategy (Sharing c) in
      if negb (SharingStrategy_eqb strategy SharingStrategyMPS) then
        klog (klog_InfoS msgNotMPS [arg_string "strategy"; arg_strategy strategy]) ;;;
        ret (Returned (Manager_nullManager mkNullManager, None))
      else
        ret (Returned (Manager_manager m, None))
  end.

Definition NewDaemons (i : info_Interface) (n : nvml_Interface) (d : device_Interface)
           (opts : list Option) : Logged (outcome (returned (list Daemon))) :=
  r <- New i n d opts ;;
  match r with
  | Panic => ret Panic
  | Returned (_, Some err) => ret (Returned ([], Some (fmt_Errorf fmtCreate err)))
  | Returned (mgr, None) => ds <- Daemons mgr ;; ret (Returned ds)
  end.

End Manager.

(** ** Sample collaborators

    A stand-in for the libraries: the NVML handle holds what the
    enumeration of resource managers answers. *)
Definition stub : Collaborators := {|
  info_Interface := unit;
  nvml_Interface := returned (list rm_ResourceManager);
  device_Interface := unit;
  NewNVMLResourceManagers := fun _ n _ _ => n;
  ContainerRoot := "/mps"
|}.

(** The manager over the stand-in whose enumeration answers [r]. *)
Definition managerOver (r : returned (list rm_ResourceManager)) : @manager stub :=
  @mkManager stub tt r tt (Some mpsConfig).

(** A sample option: it stores a configuration in the manager. *)
Definition storeConfig {env : Collaborators} (c : spec_Config) : Option :=
  fun m => {| infolib := infolib m; nvmllib := nvmllib m;
              devicelib := devicelib m; config := Some c |}.

(** The two kinds of record, for counting them in a log. *)
Definition isInfoS (r : klog_record) : bool :=
  match r with
  | klog_InfoS _ _ => true
  | klog_Warning _ => false
  end.

Definition isWarning (r : klog_record) : bool := negb (isInfoS r).

(** The MIG devices met in the resource managers that are not skipped. *)
Definition migDevices (rms : list rm_ResourceManager) : list rm_Device :=
  flat_map (fun g => filter IsMigDevice (Devices g)) (surviving rms).

(** ** Properties *)

Section Properties.

Context {env : Collaborators}.

(** *** The logging computations *)

Lemma value_bind {A B : Type} (c : Logged A) (k : A -> Logged B) :
  value (bind c k) = value (k (value c)).
Proof.
  unfold value, bind. destruct c as [l a]. simpl.
  destruct (k a) as [l' b]. reflexivity.
Qed.

Lemma records_bind {A B : Type} (c : Logged A) (k : A -> Logged B) :
  records (bind c k) = records c ++ records (k (value c)).
Proof.
  unfold records, value, bind. destruct c as [l a]. simpl.
  destruct (k a) as [l' b]. reflexivity.
Qed.

Lemma existsb_find {A : Type} (f : A -> bool) (l : list A) :
  existsb f l = match find f l with Some _ => true | None => false end.
Proof.
  induction l as [|a l IH]; simpl; [reflexivity|].
  destruct (f a); simpl; [reflexivity | exact IH].
Qed.

(** *** The inner loop *)

Lemma rangeDevices_value (ds : rm_Devices) :
  value (rangeDevices ds) = option_map replicaError (find violating ds).
Proof.
  induction ds as [|d ds IH]; simpl; [reflexivity|].
  unfold violating at 1, assertReplicas.
  destruct (IsMigDevice d); simpl.
  - rewrite value_bind. exact IH.
  - destruct (Replicas d <=? 0)%Z; simpl; [reflexivity | exact IH].
Qed.

Lemma rangeDevices_records (ds : rm_Devices) :
  find violating ds = None ->
  records (rangeDevices ds)
  = map (fun _ => klog_Warning msgMig) (filter IsMigDevice ds).
Proof.
  induction ds as [|d ds IH]; simpl; [reflexivity|].
  unfold violating at 1, assertReplicas.
  destruct (IsMigDevice d); simpl; intros H.
  - rewrite records_bind. simpl. f_equal. apply IH, H.
  - destruct (Replicas d <=? 0)%Z; simpl in *; [discriminate | apply IH, H].
Qed.

Lemma rangeDevices_warnings (ds : rm_Devices) (r : klog_record) :
  In r (records (rangeDevices ds)) -> r = klog_Warning msgMig.
Proof.
  induction ds as [|d ds IH]; simpl; [intros []|].
  destruct (IsMigDevice d).
  - rewrite records_bind. simpl. intros [H|H]; [symmetry; exact H | apply IH, H].
  - destruct (assertReplicas d); simpl; [intros [] | exact IH].
Qed.

(** *** The outer loop *)

Lemma rangeResourceManagers_value (rms : list rm_ResourceManager) :
  forall daemons,
    value (rangeResourceManagers rms daemons)
    = match find failing rms with
      | Some g => ([], value (rangeDevices (Devices g)))
      | None =>
          (daemons ++ map (fun g => NewDaemon g ContainerRoot) (surviving rms), None)
      end.
Proof.
  induction rms as [|g rms IH]; intros daemons; simpl.
  - rewrite app_nil_r. reflexivity.
  - unfold failing at 1, skipped.
    destruct (List.length (Devices g) =? 0)%nat; simpl.
    { rewrite value_bind. apply IH. }
    destruct (AnyHasAnnotations (AnnotatedIDs (GetIDs (Devices g)))); simpl.
    2:{ rewrite value_bind. apply IH. }
    rewrite value_bind, rangeDevices_value, existsb_find.
    destruct (find violating (Devices g)) as [d|] eqn:Hd; simpl.
    { rewrite rangeDevices_value, Hd. reflexivity. }
    rewrite IH. destruct (find failing rms); [reflexivity|].
    rewrite <- app_assoc. reflexivity.
Qed.

Lemma rangeResourceManagers_records (rms : list rm_ResourceManager) :
  forall daemons,
    find failing rms = None ->
    records (rangeResourceManagers rms daemons) = flat_map diagnostics rms.
Proof.
  induction rms as [|g rms IH]; intros daemons; simpl; [reflexivity|].
  unfold failing at 1, skipped, diagnostics.
  destruct (List.length (Devices g) =? 0)%nat; simpl.
  { intros H. rewrite records_bind. simpl. f_equal. apply IH, H. }
  destruct (AnyHasAnnotations (AnnotatedIDs (GetIDs (Devices g)))); simpl.
  2:{ intros H. rewrite records_bind. simpl. f_equal. apply IH, H. }
  rewrite existsb_find.
  destruct (find violating (Devices g)) as [d|] eqn:Hd; [discriminate|].
  intros H. rewrite records_bind, (rangeDevices_records _ Hd). f_equal.
  rewrite rangeDevices_value, Hd. simpl. apply IH, H.
Qed.

(** How [manager.Daemons] reads once the enumeration has answered. *)
Lemma manager_Daemons_enumerated (m : manager) (rms : list rm_ResourceManager) :
  enumeration m = (rms, None) ->
  manager_Daemons m = rangeResourceManagers rms [].
Proof. unfold manager_Daemons, enumeration. intros ->. reflexivity. Qed.

Lemma find_failing_some (rms : list rm_ResourceManager) (g : rm_ResourceManager) :
  find failing rms = Some g ->
  exists d, In g rms /\ skipped g = false /\ In d (Devices g)
            /\ violating d = true
            /\ value (rangeDevices (Devices g)) = Some (replicaError d).
Proof.
  intros H. apply find_some in H. destruct H as [Hin Hf].
  unfold failing in Hf. apply andb_true_iff in Hf. destruct Hf as [Hs Hv].
  rewrite existsb_find in Hv.
  destruct (find violating (Devices g)) as [d|] eqn:Hd; [|discriminate].
  exists d. apply find_some in Hd as Hd'. destruct Hd' as [Hind Hvd].
  repeat split; try assumption.
  - now apply negb_true_iff in Hs.
  - rewrite rangeDevices_value, Hd. reflexivity.
Qed.

Lemma manager_Daemons_failed (m : manager) (rms : list rm_ResourceManager)
      (e : error) :
  enumeration m = (rms, Some e) -> manager_Daemons m = ([], ([], Some e)).
Proof. unfold manager_Daemons, enumeration. intros ->. reflexivity. Qed.


Lemma find_without {A : Type} (f : A -> bool) (l1 l2 : list A) (a : A) :
  f a = false -> find f (l1 ++ a :: l2) = find f (l1 ++ l2).
Proof.
  intros Ha. induction l1 as [|x l1 IH]; simpl.
  - rewrite Ha. reflexivity.
  - destruct (f x); [reflexivity | exact IH].
Qed.

Lemma surviving_without (rms1 rms2 : list rm_ResourceManager)
      (g : rm_ResourceManager) :
  skipped g = true -> surviving (rms1 ++ g :: rms2) = surviving (rms1 ++ rms2).
Proof.
  intros Hs. unfold surviving. rewrite !filter_app. simpl.
  rewrite Hs. reflexivity.
Qed.

Lemma violating_spec (d : rm_Device) :
  violating d = true <-> IsMigDevice d = false /\ (Replicas d <= 0)%Z.
Proof.
  unfold violating. rewrite andb_true_iff, negb_true_iff, Z.leb_le. tauto.
Qed.

(** Every daemon returned was built, with the package root, from a
    resource manager of the input that the loop did not skip. *)
Lemma manager_Daemons_sources (m : manager) (rms : list rm_ResourceManager)
      (d : Daemon) :
  enumeration m = (rms, None) ->
  In d (fst (value (manager_Daemons m))) ->
  In (rm d) rms /\ skipped (rm d) = false /\ root d = ContainerRoot.
Proof.
  intros He. rewrite (manager_Daemons_enumerated _ _ He).
  rewrite rangeResourceManagers_value.
  destruct (find failing rms); simpl; [intros []|].
  rewrite in_map_iff. intros [g [<- Hg]]. unfold surviving in Hg.
  apply filter_In in Hg. destruct Hg as [Hin Hs]. simpl.
  repeat split; [exact Hin | now apply negb_true_iff in Hs].
Qed.

(** A resource manager that the loop skips can be taken out of the
    input: no daemon refers to it, and the daemons and the error are what
    they are without it. *)
Lemma manager_Daemons_skipped (m : manager)
      (rms1 rms2 : list rm_ResourceManager) (g : rm_ResourceManager) :
  enumeration m = (rms1 ++ g :: rms2, None) ->
  skipped g = true ->
  (forall d, In d (fst (value (manager_Daemons m))) -> rm d <> g)
  /\ (forall m', enumeration m' = (rms1 ++ rms2, None) ->
                 value (manager_Daemons m) = value (manager_Daemons m')).
Proof.
  intros He Hs. split.
  - intros d Hd Heq.
    destruct (manager_Daemons_sources _ _ _ He Hd) as [_ [Hn _]].
    rewrite Heq, Hs in Hn. discriminate.
  - intros m' He'.
    rewrite (manager_Daemons_enumerated _ _ He), (manager_Daemons_enumerated _ _ He').
    rewrite !rangeResourceManagers_value.
    rewrite find_without by (unfold failing; rewrite Hs; reflexivity).
    rewrite (surviving_without _ _ _ Hs). reflexivity.
Qed.

(** *** The claims *)


(** C5: [manager.Daemons] never returns more daemons than the enumeration
    gave resource managers. *)
Theorem Daemons_length_le (m : manager) :
  List.length (fst (value (manager_Daemons m)))
  <= List.length (fst (enumeration m)).
Proof.
  destruct (enumeration m) as [rms [e|]] eqn:He.
  - rewrite (manager_Daemons_failed _ _ _ He). simpl. lia.
  - rewrite (manager_Daemons_enumerated _ _ He), rangeResourceManagers_value.
    destruct (find failing rms); simpl; [lia|].
    rewrite length_map. apply filter_length_le.
Qed.

(** C6: a resource manager without devices gets no daemon, and it causes
    no error: the daemons and the error returned are those returned for
    the input without it. *)
Theorem Daemons_no_devices (m : manager)
        (rms1 rms2 : list rm_ResourceManager) (g : rm_ResourceManager) :
  enumeration m = (rms1 ++ g :: rms2, None) ->
  Devices g = [] ->
  (forall d, In d (fst (value (manager_Daemons m))) -> rm d <> g)
  /\ (forall m', enumeration m' = (rms1 ++ rms2, None) ->
                 value (manager_Daemons m) = value (manager_Daemons m')).
Proof.
  intros He Hg. apply (manager_Daemons_skipped _ _ _ _ He).
  unfold skipped. rewrite Hg. reflexivity.
Qed.

(** C7: a resource manager none of whose devices has an annotation gets
    no daemon, and it causes no error: the daemons and the error returned
    are those returned for the input without it. *)
Theorem Daemons_not_shared (m : manager)
        (rms1 rms2 : list rm_ResourceManager) (g : rm_ResourceManager) :
  enumeration m = (rms1 ++ g :: rms2, None) ->
  (forall d, In d (Devices g) -> HasAnnotations (ID d) = false) ->
  (forall d, In d (fst (value (manager_Daemons m))) -> rm d <> g)
  /\ (forall m', enumeration m' = (rms1 ++ rms2, None) ->
                 value (manager_Daemons m) = value (manager_Daemons m')).
Proof.
  intros He Hg. apply (manager_Daemons_skipped _ _ _ _ He).
  unfold skipped. apply orb_true_iff. right. apply negb_true_iff.
  unfold AnyHasAnnotations, AnnotatedIDs, GetIDs.
  destruct (existsb HasAnnotations (map ID (Devices g))) eqn:E; [|reflexivity].
  apply existsb_exists in E. destruct E as [i [Hi Ha]].
  apply in_map_iff in Hi. destruct Hi as [d [<- Hd]].
  rewrite (Hg d Hd) in Ha. discriminate.
Qed.

(** C8: when [manager.Daemons] returns no error, the daemons are, in
    input order, one [NewDaemon] for each resource manager that the loop
    did not skip. *)
Theorem Daemons_in_input_order (m : manager) (rms : list rm_ResourceManager) :
  enumeration m = (rms, None) ->
  snd (value (manager_Daemons m)) = None ->
  fst (value (manager_Daemons m))
  = map (fun g => NewDaemon g ContainerRoot) (surviving rms).
Proof.
  intros He. rewrite (manager_Daemons_enumerated _ _ He), rangeResourceManagers_value.
  destruct (find failing rms) as [g|] eqn:E; simpl; [|reflexivity].
  destruct (find_failing_some _ _ E) as [d [_ [_ [_ [_ Hv]]]]].
  rewrite Hv. discriminate.
Qed.

(** C10: [assertReplicas] is not applied to MIG devices: when every
    device that is not a MIG device has a positive replica count,
    [manager.Daemons] returns no error whatever the counts of the MIG
    devices are, and an error it returns is the replica error of a device
    that is not a MIG device. *)
Theorem Daemons_mig_replicas_unchecked (m : manager)
        (rms : list rm_ResourceManager) :
  enumeration m = (rms, None) ->
  ((forall g d, In g rms -> In d (Devices g) -> IsMigDevice d = false ->
                (0 < Replicas d)%Z) ->
   snd (value (manager_Daemons m)) = None)
  /\ (forall e, snd (value (manager_Daemons m)) = Some e ->
        exists g d, In g rms /\ In d (Devices g)
                    /\ IsMigDevice d = false /\ e = replicaError d).
Proof.
  intros He. rewrite (manager_Daemons_enumerated _ _ He), rangeResourceManagers_value.
  destruct (find failing rms) as [g|] eqn:E.
  - destruct (find_failing_some _ _ E) as [d [Hin [_ [Hd [Hv Hval]]]]].
    apply violating_spec in Hv. destruct Hv as [Hm Hr].
    rewrite Hval. simpl. split.
    + intros H. specialize (H g d Hin Hd Hm). lia.
    + intros e [= <-]. exists g, d. repeat split; assumption.
  - simpl. split; [reflexivity | discriminate].
Qed.

(** C3: when the configured strategy is not MPS, [New] returns the null
    manager with a nil error, and [Daemons] of a null manager returns no
    daemon, no error and logs nothing, whatever the collaborators are. *)
Theorem New_not_MPS_null (i : info_Interface) (n : nvml_Interface)
        (d : device_Interface) (opts : list Option) (c : spec_Config) :
  config (applyOptions opts (bare i n d)) = Some c ->
  Sharing_SharingStrategy (Sharing c) <> SharingStrategyMPS ->
  value (New i n d opts) = Returned (Manager_nullManager mkNullManager, None)
  /\ forall nm, Daemons (Manager_nullManager nm) = ([], ([], None)).
Proof.
  intros Hc Hs. split; [|reflexivity].
  unfold New. rewrite Hc.
  destruct (Sharing_SharingStrategy (Sharing c)); simpl;
    try reflexivity; contradiction.
Qed.

(** C9: when the options leave a configuration in the manager, [New]
    returns a manager and a nil error, whatever the strategy. *)
Theorem New_no_error (i : info_Interface) (n : nvml_Interface)
        (d : device_Interface) (opts : list Option) (c : spec_Config) :
  config (applyOptions opts (bare i n d)) = Some c ->
  exists mgr, value (New i n d opts) = Returned (mgr, None).
Proof.
  intros Hc. unfold New. rewrite Hc.
  destruct (negb (SharingStrategy_eqb (Sharing_SharingStrategy (Sharing c))
                                      SharingStrategyMPS)).
  - exists (Manager_nullManager mkNullManager). reflexivity.
  - eexists. reflexivity.
Qed.

(** C4, as the code has it: an error of the enumeration of the resource
    managers is returned unchanged, with no daemon; otherwise the only
    error is the wrapped replica error of a device that is not a MIG
    device, in a resource manager that was not skipped. When no error is
    returned the log is, in input order, one [InfoS] record for each
    resource manager without devices or without annotation, and one warning
    for each MIG device of the resource managers that were not skipped; a
    MIG device of a skipped resource manager is not looked at. *)
Theorem Daemons_errors (m : manager) (rms : list rm_ResourceManager)
        (enumerationError : option error) :
  enumeration m = (rms, enumerationError) ->
  (forall e, enumerationError = Some e -> manager_Daemons m = ([], ([], Some e)))
  /\ (enumerationError = None ->
      (snd (value (manager_Daemons m)) = None
       \/ exists g d, In g rms /\ skipped g = false /\ In d (Devices g)
                      /\ IsMigDevice d = false /\ (Replicas d <= 0)%Z
                      /\ value (manager_Daemons m) = ([], Some (replicaError d)))
      /\ (snd (value (manager_Daemons m)) = None ->
          records (manager_Daemons m) = flat_map diagnostics rms)).
Proof.
  intros He. split.
  - intros e ->. apply (manager_Daemons_failed _ _ _ He).
  - intros ->. rewrite (manager_Daemons_enumerated _ _ He).
    rewrite rangeResourceManagers_value.
    destruct (find failing rms) as [g|] eqn:E.
    + destruct (find_failing_some _ _ E) as [d [Hin [Hs [Hd [Hv Hval]]]]].
      apply violating_spec in Hv. destruct Hv as [Hm Hr]. rewrite Hval. split.
      * right. exists g, d. repeat split; assumption.
      * discriminate.
    + split; [left; reflexivity|].
      intros _. apply rangeResourceManagers_records, E.
Qed.

(** *** Further properties of the loop *)

Lemma violating_assert (d : rm_Device) :
  violating d = false <-> IsMigDevice d = true \/ assertReplicas d = None.
Proof.
  unfold violating, assertReplicas.
  destruct (IsMigDevice d), (Replicas d <=? 0)%Z; simpl; split; intros H;
    try reflexivity; try (left; reflexivity); try (right; reflexivity);
    try discriminate; destruct H; discriminate.
Qed.

Lemma existsb_false {A : Type} (f : A -> bool) (l : list A) :
  existsb f l = false <-> forall a, In a l -> f a = false.
Proof.
  induction l as [|x l IH]; simpl.
  - split; [intros _ a [] | reflexivity].
  - rewrite orb_false_iff, IH. split.
    + intros [Hx Hl] a [<-|Ha]; [exact Hx | apply Hl, Ha].
    + intros H. split; [apply H; left; reflexivity|].
      intros a Ha. apply H. right. exact Ha.
Qed.

Lemma failing_false (g : rm_ResourceManager) :
  failing g = false <->
  (skipped g = false ->
   forall d, In d (Devices g) -> IsMigDevice d = false -> assertReplicas d = None).
Proof.
  unfold failing. destruct (skipped g); simpl.
  - split; [intros _ H; discriminate | reflexivity].
  - rewrite existsb_false. split.
    + intros H _ d Hd Hm. destruct (proj1 (violating_assert d) (H d Hd)) as [Hm'|Ha].
      * rewrite Hm in Hm'. discriminate.
      * exact Ha.
    + intros H d Hd. apply violating_assert.
      destruct (IsMigDevice d) eqn:Hm; [left; reflexivity|].
      right. apply (H eq_refl d Hd Hm).
Qed.

Lemma find_none_iff {A : Type} (f : A -> bool) (l : list A) :
  find f l = None <-> forall a, In a l -> f a = false.
Proof.
  split; [apply find_none|].
  induction l as [|x l IH]; simpl; intros H; [reflexivity|].
  rewrite (H x (or_introl eq_refl)). apply IH.
  intros a Ha. apply H. right. exact Ha.
Qed.

Lemma find_app_none {A : Type} (f : A -> bool) (l1 l2 : list A) :
  find f l1 = None -> find f (l1 ++ l2) = find f l2.
Proof.
  induction l1 as [|x l1 IH]; simpl; [reflexivity|].
  destruct (f x); [discriminate | exact IH].
Qed.

Lemma find_app_some {A : Type} (f : A -> bool) (l1 l2 : list A) (a : A) :
  find f l1 = Some a -> find f (l1 ++ l2) = Some a.
Proof.
  induction l1 as [|x l1 IH]; simpl; [discriminate|].
  destruct (f x); [trivial | exact IH].
Qed.

(** The inner loop stops at the first device that fails. *)
Lemma rangeDevices_first (dpre dpost : rm_Devices) (d : rm_Device) (e : error) :
  (forall d', In d' dpre -> IsMigDevice d' = true \/ assertReplicas d' = None) ->
  IsMigDevice d = false -> assertReplicas d = Some e ->
  rangeDevices (dpre ++ d :: dpost)
  = (map (fun _ => klog_Warning msgMig) (filter IsMigDevice dpre),
     Some (fmt_Errorf fmtInvalid e)).
Proof.
  intros Hpre Hm He. induction dpre as [|x dpre IH]; simpl.
  - rewrite Hm, He. reflexivity.
  - assert (IH' := IH (fun d' H => Hpre d' (or_intror H))).
    destruct (IsMigDevice x) eqn:Hx.
    + rewrite IH'. reflexivity.
    + destruct (Hpre x (or_introl eq_refl)) as [H|H]; [congruence|].
      rewrite H. exact IH'.
Qed.

(** The log of the outer loop does not depend on the daemons built so far. *)
Lemma rangeResourceManagers_records_acc (rms : list rm_ResourceManager) :
  forall daemons daemons',
    records (rangeResourceManagers rms daemons)
    = records (rangeResourceManagers rms daemons').
Proof.
  induction rms as [|g rms IH]; intros acc acc'; simpl; [reflexivity|].
  destruct (List.length (Devices g) =? 0)%nat.
  { rewrite !records_bind. f_equal. apply IH. }
  destruct (negb (AnyHasAnnotations (AnnotatedIDs (GetIDs (Devices g))))).
  { rewrite !records_bind. f_equal. apply IH. }
  rewrite !records_bind. f_equal.
  destruct (value (rangeDevices (Devices g))); [reflexivity | apply IH].
Qed.

(** The outer loop on a concatenation, when its first part fails. *)
Lemma rangeResourceManagers_app_failed (rms1 rms2 : list rm_ResourceManager) :
  forall daemons g,
    find failing rms1 = Some g ->
    rangeResourceManagers (rms1 ++ rms2) daemons
    = rangeResourceManagers rms1 daemons.
Proof.
  induction rms1 as [|x rms1 IH]; intros acc g; simpl; [discriminate|].
  unfold failing at 1, skipped.
  destruct (List.length (Devices x) =? 0)%nat; simpl.
  { intros H. unfold bind. simpl. rewrite (IH _ _ H). reflexivity. }
  destruct (AnyHasAnnotations (AnnotatedIDs (GetIDs (Devices x)))); simpl.
  2:{ intros H. unfold bind. simpl. rewrite (IH _ _ H). reflexivity. }
  rewrite existsb_find.
  destruct (rangeDevices (Devices x)) as [l v] eqn:Hr.
  assert (Hv : v = option_map replicaError (find violating (Devices x))).
  { rewrite <- rangeDevices_value, Hr. reflexivity. }
  destruct (find violating (Devices x)); simpl in Hv; subst v.
  - intros _. reflexivity.
  - intros H. unfold bind. rewrite (IH _ _ H). reflexivity.
Qed.

(** The outer loop on a concatenation, when its first part does not fail. *)
Lemma rangeResourceManagers_app_passed (rms1 rms2 : list rm_ResourceManager) :
  forall daemons,
    find failing rms1 = None ->
    rangeResourceManagers (rms1 ++ rms2) daemons
    = (flat_map diagnostics rms1
       ++ records (rangeResourceManagers rms2 []),
       value (rangeResourceManagers rms2
                (daemons ++ map (fun g => NewDaemon g ContainerRoot)
                                (surviving rms1)))).
Proof.
  induction rms1 as [|x rms1 IH]; intros acc; simpl.
  - intros _. rewrite app_nil_r.
    rewrite (rangeResourceManagers_records_acc rms2 [] acc).
    destruct (rangeResourceManagers rms2 acc). reflexivity.
  - unfold failing at 1, skipped, diagnostics.
    destruct (List.length (Devices x) =? 0)%nat; simpl.
    { intros H. unfold bind. simpl. rewrite (IH _ H). reflexivity. }
    destruct (AnyHasAnnotations (AnnotatedIDs (GetIDs (Devices x)))); simpl.
    2:{ intros H. unfold bind. simpl. rewrite (IH _ H). reflexivity. }
    rewrite existsb_find.
    destruct (find violating (Devices x)) as [d|] eqn:Hd; [discriminate|].
    intros H.
    assert (Hl := rangeDevices_records _ Hd).
    assert (Hv := rangeDevices_value (Devices x)). rewrite Hd in Hv. simpl in Hv.
    destruct (rangeDevices (Devices x)) as [l v]. unfold records in Hl.
    unfold value in Hv. simpl in Hl, Hv. subst l v.
    unfold bind. rewrite (IH _ H). rewrite <- !app_assoc. reflexivity.
Qed.

(** The error of the loop is read from the devices alone. *)
Lemma find_failing_devices (rms rms' : list rm_ResourceManager) :
  map Devices rms = map Devices rms' ->
  option_map Devices (find failing rms) = option_map Devices (find failing rms').
Proof.
  revert rms'. induction rms as [|g rms IH]; intros [|g' rms']; simpl;
    try discriminate; [reflexivity|].
  intros [= Hg Hrest].
  assert (Hf : failing g = failing g').
  { unfold failing, skipped. rewrite Hg. reflexivity. }
  rewrite <- Hf. destruct (failing g); simpl; [rewrite Hg; reflexivity|].
  apply IH, Hrest.
Qed.

Lemma count_diagnostics_InfoS (g : rm_ResourceManager) :
  List.length (filter isInfoS (diagnostics g))
  = if skipped g then 1 else 0.
Proof.
  unfold diagnostics, skipped.
  destruct (List.length (Devices g) =? 0)%nat; simpl; [reflexivity|].
  destruct (AnyHasAnnotations (AnnotatedIDs (GetIDs (Devices g)))); simpl;
    [|reflexivity].
  induction (filter IsMigDevice (Devices g)) as [|x l IH]; simpl;
    [reflexivity | exact IH].
Qed.

Lemma warnings_diagnostics (g : rm_ResourceManager) :
  filter isWarning (diagnostics g)
  = if skipped g then []
    else map (fun _ => klog_Warning msgMig) (filter IsMigDevice (Devices g)).
Proof.
  unfold diagnostics, skipped.
  destruct (List.length (Devices g) =? 0)%nat; simpl; [reflexivity|].
  destruct (AnyHasAnnotations (AnnotatedIDs (GetIDs (Devices g)))); simpl;
    [|reflexivity].
  induction (filter IsMigDevice (Devices g)) as [|x l IH]; simpl;
    [reflexivity | rewrite IH; reflexivity].
Qed.

Lemma rangeDevices_logged (ds : rm_Devices) (r : klog_record) :
  In r (records (rangeDevices ds)) ->
  r = klog_Warning msgMig /\ exists d, In d ds /\ IsMigDevice d = true.
Proof.
  induction ds as [|x ds IH]; simpl; [intros []|].
  destruct (IsMigDevice x) eqn:Hx.
  - rewrite records_bind. simpl. intros [H|H].
    + split; [symmetry; exact H|]. exists x. split; [left; reflexivity | exact Hx].
    + destruct (IH H) as [Hr [d [Hd Hm]]]. split; [exact Hr|].
      exists d. split; [right; exact Hd | exact Hm].
  - destruct (assertReplicas x); simpl; [intros []|].
    intros H. destruct (IH H) as [Hr [d [Hd Hm]]]. split; [exact Hr|].
    exists d. split; [right; exact Hd | exact Hm].
Qed.

Lemma skipped_false (g : rm_ResourceManager) :
  skipped g = false ->
  (List.length (Devices g) =? 0)%nat = false
  /\ AnyHasAnnotations (AnnotatedIDs (GetIDs (Devices g))) = true.
Proof.
  unfold skipped. rewrite orb_false_iff, negb_false_iff. trivial.
Qed.

Lemma accounting (rms : list rm_ResourceManager) :
  List.length (surviving rms)
  + List.length (filter isInfoS (flat_map diagnostics rms))
  = List.length rms.
Proof.
  induction rms as [|g rms IH]; simpl; [reflexivity|].
  rewrite filter_app, length_app, count_diagnostics_InfoS.
  unfold surviving in *. simpl. destruct (skipped g); simpl; lia.
Qed.

Lemma warnings_flat_map (rms : list rm_ResourceManager) :
  filter isWarning (flat_map diagnostics rms)
  = map (fun _ => klog_Warning msgMig) (migDevices rms).
Proof.
  unfold migDevices, surviving.
  induction rms as [|g rms IH]; simpl; [reflexivity|].
  rewrite filter_app, warnings_diagnostics, IH.
  destruct (skipped g); simpl; [reflexivity|].
  rewrite map_app. reflexivity.
Qed.

(** *** Further theorems *)

(** X1: once the resource managers are enumerated, [manager.Daemons]
    returns a nil error exactly when [assertReplicas] accepts every device
    that is not a MIG device in every resource manager that is not
    skipped. *)
Theorem Daemons_succeeds_iff (m : manager) (rms : list rm_ResourceManager) :
  enumeration m = (rms, None) ->
  (snd (value (manager_Daemons m)) = None <->
   forall g d, In g rms -> skipped g = false -> In d (Devices g) ->
               IsMigDevice d = false -> assertReplicas d = None).
Proof.
  intros He. rewrite (manager_Daemons_enumerated _ _ He), rangeResourceManagers_value.
  destruct (find failing rms) as [g|] eqn:E.
  - destruct (find_failing_some _ _ E) as [d [Hin [Hs [Hd [Hv Hval]]]]].
    rewrite Hval. simpl. split; [discriminate|]. intros H.
    assert (Hn : violating d = false).
    { apply violating_assert. right.
      apply (H g d Hin Hs Hd). apply violating_spec in Hv. tauto. }
    rewrite Hn in Hv. discriminate.
  - simpl. split; [|reflexivity]. intros _ g d Hg Hs Hd Hm.
    apply (proj1 (failing_false g) (find_none _ _ E g Hg) Hs d Hd Hm).
Qed.

(** X2: [manager.Daemons] returns at the first device that fails: with
    no failure before it, the result is no daemon, the wrapped error of that
    device, and the log of what was met before it; the resource managers
    after it are not looked at. *)
Theorem Daemons_first_failure (m : manager)
        (pre post : list rm_ResourceManager) (g : rm_ResourceManager)
        (dpre dpost : rm_Devices) (d : rm_Device) (e : error) :
  enumeration m = (pre ++ g :: post, None) ->
  (forall g' d', In g' pre -> skipped g' = false -> In d' (Devices g') ->
                 IsMigDevice d' = false -> assertReplicas d' = None) ->
  skipped g = false ->
  Devices g = dpre ++ d :: dpost ->
  (forall d', In d' dpre -> IsMigDevice d' = true \/ assertReplicas d' = None) ->
  IsMigDevice d = false ->
  assertReplicas d = Some e ->
  manager_Daemons m
  = (flat_map diagnostics pre
     ++ map (fun _ => klog_Warning msgMig) (filter IsMigDevice dpre),
     ([], Some (fmt_Errorf fmtInvalid e))).
Proof.
  intros He Hpre Hs Hdev Hdpre Hm Ha.
  rewrite (manager_Daemons_enumerated _ _ He).
  assert (Hnone : find failing pre = None).
  { apply find_none_iff. intros g' Hg'. apply failing_false.
    intros Hs' d' Hd' Hm'. apply (Hpre g' d' Hg' Hs' Hd' Hm'). }
  rewrite (rangeResourceManagers_app_passed _ _ _ Hnone).
  destruct (skipped_false _ Hs) as [Hlen Hany].
  simpl. rewrite Hlen, Hany. simpl.
  rewrite Hdev, (rangeDevices_first _ _ _ _ Hdpre Hm Ha).
  unfold bind, records, value, ret. simpl. rewrite app_nil_r. reflexivity.
Qed.

(** X3: [manager.Daemons] on a concatenated enumeration. When the first
    part fails the result is that of the first part. Otherwise the logs
    follow each other, and the result is the error of the second part with
    no daemon, or the daemons of both parts in order. *)
Theorem Daemons_concat (m1 m2 m : manager) (rms1 rms2 : list rm_ResourceManager) :
  enumeration m1 = (rms1, None) ->
  enumeration m2 = (rms2, None) ->
  enumeration m = (rms1 ++ rms2, None) ->
  manager_Daemons m
  = match snd (value (manager_Daemons m1)) with
    | Some _ => manager_Daemons m1
    | None =>
        (records (manager_Daemons m1) ++ records (manager_Daemons m2),
         match snd (value (manager_Daemons m2)) with
         | Some e => ([], Some e)
         | None => (fst (value (manager_Daemons m1))
                    ++ fst (value (manager_Daemons m2)), None)
         end)
    end.
Proof.
  intros H1 H2 H.
  rewrite (manager_Daemons_enumerated _ _ H1), (manager_Daemons_enumerated _ _ H2),
    (manager_Daemons_enumerated _ _ H).
  rewrite !rangeResourceManagers_value.
  destruct (find failing rms1) as [g1|] eqn:E1.
  - destruct (find_failing_some _ _ E1) as [d [_ [_ [_ [_ Hval]]]]].
    rewrite Hval. simpl. apply (rangeResourceManagers_app_failed _ _ _ _ E1).
  - simpl. rewrite (rangeResourceManagers_app_passed _ _ _ E1).
    rewrite (rangeResourceManagers_records _ _ E1).
    rewrite rangeResourceManagers_value. f_equal.
    destruct (find failing rms2) as [g2|] eqn:E2; simpl; [|reflexivity].
    destruct (find_failing_some _ _ E2) as [d [_ [_ [_ [_ Hval]]]]].
    rewrite Hval. reflexivity.
Qed.

(** X4: every daemon returned carries [ContainerRoot] and refers to a
    resource manager of the enumeration that has devices, one of them
    annotated, and whose devices other than MIG devices all passed
    [assertReplicas]. *)
Theorem Daemons_daemon_invariant (m : manager) (rms : list rm_ResourceManager)
        (dm : Daemon) :
  enumeration m = (rms, None) ->
  In dm (fst (value (manager_Daemons m))) ->
  root dm = ContainerRoot
  /\ In (rm dm) rms
  /\ Devices (rm dm) <> []
  /\ (exists d, In d (Devices (rm dm)) /\ HasAnnotations (ID d) = true)
  /\ (forall d, In d (Devices (rm dm)) -> IsMigDevice d = false ->
                assertReplicas d = None).
Proof.
  intros He. rewrite (manager_Daemons_enumerated _ _ He), rangeResourceManagers_value.
  destruct (find failing rms) as [g|] eqn:E; simpl; [intros []|].
  rewrite in_map_iff. intros [g [<- Hg]]. unfold surviving in Hg.
  apply filter_In in Hg. destruct Hg as [Hin Hs]. apply negb_true_iff in Hs.
  destruct (skipped_false _ Hs) as [Hlen Hany]. simpl.
  repeat split.
  - exact Hin.
  - intros Hnil. rewrite Hnil in Hlen. discriminate.
  - unfold AnyHasAnnotations, AnnotatedIDs, GetIDs in Hany.
    apply existsb_exists in Hany. destruct Hany as [i [Hi Ha]].
    apply in_map_iff in Hi. destruct Hi as [d [<- Hd]]. exists d. split; assumption.
  - intros d Hd Hm.
    apply (proj1 (failing_false g) (find_none _ _ E g Hin) Hs d Hd Hm).
Qed.

(** X5: whatever the outcome, a record logged by [manager.Daemons] is the
    record of a resource manager of the enumeration without devices, or of
    one with devices of which none is annotated, or the warning for a MIG
    device of one of them. *)
Theorem Daemons_log_records (m : manager) (rms : list rm_ResourceManager)
        (r : klog_record) :
  enumeration m = (rms, None) ->
  In r (records (manager_Daemons m)) ->
  (exists g, In g rms /\ Devices g = []
             /\ r = klog_InfoS msgNoDevices
                      [arg_string "resource"; arg_string (Resource g)])
  \/ (exists g, In g rms /\ Devices g <> []
                /\ AnyHasAnnotations (AnnotatedIDs (GetIDs (Devices g))) = false
                /\ r = klog_InfoS msgNotShared
                         [arg_string "resource"; arg_string "resource";
                          arg_string (Resource g)])
  \/ (exists g d, In g rms /\ In d (Devices g) /\ IsMigDevice d = true
                  /\ r = klog_Warning msgMig).
Proof.
  intros He. rewrite (manager_Daemons_enumerated _ _ He). clear He.
  generalize (@nil Daemon) as acc.
  induction rms as [|g rms IH]; intros acc; simpl; [intros []|].
  assert (Hlift :
    forall acc', In r (records (rangeResourceManagers rms acc')) ->
      (exists g0, (g = g0 \/ In g0 rms) /\ Devices g0 = []
         /\ r = klog_InfoS msgNoDevices
                  [arg_string "resource"; arg_string (Resource g0)])
      \/ (exists g0, (g = g0 \/ In g0 rms) /\ Devices g0 <> []
            /\ AnyHasAnnotations (AnnotatedIDs (GetIDs (Devices g0))) = false
            /\ r = klog_InfoS msgNotShared
                     [arg_string "resource"; arg_string "resource";
                      arg_string (Resource g0)])
      \/ (exists g0 d, (g = g0 \/ In g0 rms) /\ In d (Devices g0)
            /\ IsMigDevice d = true /\ r = klog_Warning msgMig)).
  { intros acc' H. destruct (IH acc' H) as [[g0 [Hg0 Hr]]|[[g0 [Hg0 Hr]]|[g0 [d [Hg0 Hr]]]]].
    - left. exists g0. split; [right; exact Hg0 | exact Hr].
    - right. left. exists g0. split; [right; exact Hg0 | exact Hr].
    - right. right. exists g0, d. split; [right; exact Hg0 | exact Hr]. }
  destruct (List.length (Devices g) =? 0)%nat eqn:Hlen.
  { rewrite records_bind. simpl. intros [H|H]; [|apply (Hlift _ H)].
    left. exists g. split; [left; reflexivity|]. split; [|symmetry; exact H].
    destruct (Devices g); [reflexivity | discriminate]. }
  destruct (AnyHasAnnotations (AnnotatedIDs (GetIDs (Devices g)))) eqn:Hany; simpl.
  2:{ rewrite records_bind. simpl. intros [H|H]; [|apply (Hlift _ H)].
      right. left. exists g. split; [left; reflexivity|].
      split; [|split; [exact Hany | symmetry; exact H]].
      intros Hnil. rewrite Hnil in Hlen. discriminate. }
  rewrite records_bind, in_app_iff. intros [H|H].
  - destruct (rangeDevices_logged _ _ H) as [Hr [d [Hd Hm]]].
    right. right. exists g, d. repeat split; try assumption. left. reflexivity.
  - destruct (value (rangeDevices (Devices g))); simpl in H; [destruct H|].
    apply (Hlift _ H).
Qed.

(** X6: when [manager.Daemons] returns no error, every resource manager
    of the enumeration is accounted for once: the daemons and the [InfoS]
    records together are as many as the resource managers. *)
Theorem Daemons_accounting (m : manager) (rms : list rm_ResourceManager) :
  enumeration m = (rms, None) ->
  snd (value (manager_Daemons m)) = None ->
  List.length (fst (value (manager_Daemons m)))
  + List.length (filter isInfoS (records (manager_Daemons m)))
  = List.length rms.
Proof.
  intros He. rewrite (manager_Daemons_enumerated _ _ He), rangeResourceManagers_value.
  destruct (find failing rms) as [g|] eqn:E.
  - destruct (find_failing_some _ _ E) as [d [_ [_ [_ [_ Hval]]]]].
    rewrite Hval. discriminate.
  - intros _. rewrite (rangeResourceManagers_records _ _ E). simpl.
    rewrite length_map. apply accounting.
Qed.

(** X7: when [manager.Daemons] returns no error, it has logged one
    warning for each MIG device of the resource managers it did not skip,
    and nothing else at that level. *)
Theorem Daemons_warning_count (m : manager) (rms : list rm_ResourceManager) :
  enumeration m = (rms, None) ->
  snd (value (manager_Daemons m)) = None ->
  filter isWarning (records (manager_Daemons m))
  = map (fun _ => klog_Warning msgMig) (migDevices rms).
Proof.
  intros He. rewrite (manager_Daemons_enumerated _ _ He), rangeResourceManagers_value.
  destruct (find failing rms) as [g|] eqn:E.
  - destruct (find_failing_some _ _ E) as [d [_ [_ [_ [_ Hval]]]]].
    rewrite Hval. discriminate.
  - intros _. rewrite (rangeResourceManagers_records _ _ E).
    apply warnings_flat_map.
Qed.

(** X8: the error of [manager.Daemons] is read from the devices alone:
    two enumerations whose resource managers hold the same devices, under
    whatever resource names, give the same error. *)
Theorem Daemons_error_ignores_names (m m' : manager)
        (rms rms' : list rm_ResourceManager) :
  enumeration m = (rms, None) ->
  enumeration m' = (rms', None) ->
  map Devices rms = map Devices rms' ->
  snd (value (manager_Daemons m)) = snd (value (manager_Daemons m')).
Proof.
  intros He He' Hd.
  rewrite (manager_Daemons_enumerated _ _ He), (manager_Daemons_enumerated _ _ He').
  rewrite !rangeResourceManagers_value.
  assert (H := find_failing_devices _ _ Hd).
  destruct (find failing rms) as [g|], (find failing rms') as [g'|];
    simpl in *; try discriminate; [|reflexivity].
  injection H as ->. reflexivity.
Qed.

(** X9: with a configuration whose strategy is MPS, [NewDaemons] is
    [manager.Daemons] of the manager the options built: the same log, the
    same daemons, and the same error, not wrapped. *)
Theorem NewDaemons_MPS (i : info_Interface) (n : nvml_Interface)
        (d : device_Interface) (opts : list Option) (c : spec_Config) :
  config (applyOptions opts (bare i n d)) = Some c ->
  Sharing_SharingStrategy (Sharing c) = SharingStrategyMPS ->
  NewDaemons i n d opts
  = (records (manager_Daemons (applyOptions opts (bare i n d))),
     Returned (value (manager_Daemons (applyOptions opts (bare i n d))))).
Proof.
  intros Hc Hs. unfold NewDaemons, New. rewrite Hc, Hs. simpl.
  unfold bind, ret, records, value. simpl.
  destruct (manager_Daemons (applyOptions opts (bare i n d))) as [l v].
  simpl. rewrite app_nil_r. reflexivity.
Qed.

(** X10: with a configuration whose strategy is not MPS, [NewDaemons]
    logs that one fact and returns no daemon and no error; the resource
    managers are not enumerated. *)
Theorem NewDaemons_not_MPS (i : info_Interface) (n : nvml_Interface)
        (d : device_Interface) (opts : list Option) (c : spec_Config) :
  config (applyOptions opts (bare i n d)) = Some c ->
  Sharing_SharingStrategy (Sharing c) <> SharingStrategyMPS ->
  NewDaemons i n d opts
  = ([klog_InfoS msgNotMPS
        [arg_string "strategy"; arg_strategy (Sharing_SharingStrategy (Sharing c))]],
     Returned ([], None)).
Proof.
  intros Hc Hs. unfold NewDaemons, New. rewrite Hc.
  destruct (Sharing_SharingStrategy (Sharing c)); simpl;
    try reflexivity; contradiction.
Qed.

End Properties.

(** ** The properties at sample inputs *)

(** Scenario A of the specification: "gpu0" is shared, "gpu1" is not. *)
Example scenario_A :
  manager_Daemons (managerOver ([gpu0; gpu1], None))
  = ([klog_InfoS msgNotShared
        [arg_string "resource"; arg_string "resource"; arg_string "gpu1"]],
     ([NewDaemon gpu0 "/mps"], None)).
Proof. reflexivity. Qed.

(** Scenario C: an annotated full GPU with a replica count of zero. *)
Example scenario_C :
  manager_Daemons (managerOver ([gpu2], None))
  = ([], ([], Some (replicaError zeroGpu))).
Proof. reflexivity. Qed.

(** C1 (the code departs from it): the resource "gpu0" made of one
    annotated MIG device with two replicas is not left out. The [continue]
    after the warning goes on with the next device of the inner loop, so
    the daemon of the resource is created all the same. *)
Theorem Daemons_mig_resource_gets_daemon :
  manager_Daemons (managerOver ([gpu0Mig], None))
  = ([klog_Warning msgMig], ([NewDaemon gpu0Mig "/mps"], None)).
Proof. reflexivity. Qed.

(** C4 as stated fails when the enumeration of the resource managers
    fails: its error comes back as it is, and it is no replica error. *)
Lemma Daemons_enumeration_error :
  snd (value (manager_Daemons
                (managerOver ([], Some (errors_New "failed to initialize NVML")))))
  = Some (errors_New "failed to initialize NVML")
  /\ forall d, errors_New "failed to initialize NVML" <> replicaError d.
Proof. split; [reflexivity | intros d; discriminate]. Qed.



Lemma New_not_MPS_null_witness :
  value (@New stub tt ([], None) tt [storeConfig timeSlicingConfig])
  = Returned (Manager_nullManager mkNullManager, None)
  /\ forall nm, @Daemons stub (Manager_nullManager nm) = ([], ([], None)).
Proof.
  apply (@New_not_MPS_null stub tt ([], None) tt
           [storeConfig timeSlicingConfig] timeSlicingConfig).
  - reflexivity.
  - simpl. discriminate.
Defined.

Lemma New_no_error_witness :
  exists mgr,
    value (@New stub tt ([gpu0], None) tt [storeConfig mpsConfig])
    = Returned (mgr, None).
Proof.
  apply (@New_no_error stub tt ([gpu0], None) tt [storeConfig mpsConfig] mpsConfig).
  reflexivity.
Defined.

Lemma Daemons_errors_witness :
  (forall e, @None error = Some e ->
             manager_Daemons (managerOver ([gpuNone; gpu1; gpu0Mig], None))
             = ([], ([], Some e)))
  /\ (@None error = None ->
      (snd (value (manager_Daemons (managerOver ([gpuNone; gpu1; gpu0Mig], None))))
       = None
       \/ exists g d, In g [gpuNone; gpu1; gpu0Mig] /\ skipped g = false
                      /\ In d (Devices g)
                      /\ IsMigDevice d = false /\ (Replicas d <= 0)%Z
                      /\ value (manager_Daemons
                                  (managerOver ([gpuNone; gpu1; gpu0Mig], None)))
                         = ([], Some (replicaError d)))
      /\ (snd (value (manager_Daemons (managerOver ([gpuNone; gpu1; gpu0Mig], None))))
          = None ->
          records (manager_Daemons (managerOver ([gpuNone; gpu1; gpu0Mig], None)))
          = flat_map diagnostics [gpuNone; gpu1; gpu0Mig])).
Proof.
  apply (@Daemons_errors stub (managerOver ([gpuNone; gpu1; gpu0Mig], None))
           [gpuNone; gpu1; gpu0Mig] None).
  reflexivity.
Defined.

Lemma Daemons_no_devices_witness :
  (forall d, In d (fst (value (manager_Daemons
                                 (managerOver ([gpu0; gpuNone; gpu1], None)))))
             -> rm d <> gpuNone)
  /\ value (manager_Daemons (managerOver ([gpu0; gpuNone; gpu1], None)))
     = value (manager_Daemons (managerOver ([gpu0; gpu1], None))).
Proof.
  destruct (@Daemons_no_devices stub
              (managerOver ([gpu0; gpuNone; gpu1], None))
              [gpu0] [gpu1] gpuNone eq_refl eq_refl) as [H1 H2].
  split; [exact H1 | apply H2; reflexivity].
Defined.

Lemma Daemons_not_shared_witness :
  (forall d, In d (fst (value (manager_Daemons
                                 (managerOver ([gpu0; gpu1; gpu3], None)))))
             -> rm d <> gpu1)
  /\ value (manager_Daemons (managerOver ([gpu0; gpu1; gpu3], None)))
     = value (manager_Daemons (managerOver ([gpu0; gpu3], None))).
Proof.
  destruct (@Daemons_not_shared stub
              (managerOver ([gpu0; gpu1; gpu3], None))
              [gpu0] [gpu3] gpu1 eq_refl) as [H1 H2].
  - simpl. intros d [<-|[]]. reflexivity.
  - split; [exact H1 | apply H2; reflexivity].
Defined.

Lemma Daemons_in_input_order_witness :
  fst (value (manager_Daemons (managerOver ([gpu0; gpu1; gpu3], None))))
  = [NewDaemon gpu0 "/mps"; NewDaemon gpu3 "/mps"].
Proof.
  apply (@Daemons_in_input_order stub
           (managerOver ([gpu0; gpu1; gpu3], None)) [gpu0; gpu1; gpu3]).
  - reflexivity.
  - reflexivity.
Defined.

Lemma Daemons_mig_replicas_unchecked_witness :
  snd (value (manager_Daemons (managerOver ([gpu3], None)))) = None.
Proof.
  apply (proj1 (@Daemons_mig_replicas_unchecked stub
                  (managerOver ([gpu3], None)) [gpu3] eq_refl)).
  simpl. intros g d [<-|[]] [<-|[<-|[]]]; simpl; intros H; [discriminate | lia].
Defined.

(** ** The further theorems at sample inputs *)

Lemma Daemons_succeeds_iff_witness :
  snd (value (manager_Daemons (managerOver ([gpu0; gpu3], None)))) = None <->
  forall g d, In g [gpu0; gpu3] -> skipped g = false -> In d (Devices g) ->
              IsMigDevice d = false -> assertReplicas d = None.
Proof.
  apply (@Daemons_succeeds_iff stub (managerOver ([gpu0; gpu3], None))
           [gpu0; gpu3]).
  reflexivity.
Defined.

Lemma Daemons_first_failure_witness :
  manager_Daemons (managerOver ([gpuNone; gpu1; gpu4; gpu0], None))
  = ([klog_InfoS msgNoDevices [arg_string "resource"; arg_string "none"];
      klog_InfoS msgNotShared
        [arg_string "resource"; arg_string "resource"; arg_string "gpu1"];
      klog_Warning msgMig],
     ([], Some (fmt_Errorf fmtInvalid (invalidReplicas (annotated "GPU-2") 0)))).
Proof.
  apply (@Daemons_first_failure stub
           (managerOver ([gpuNone; gpu1; gpu4; gpu0], None))
           [gpuNone; gpu1] [gpu0] gpu4 [sharedMig] [sharedGpu] zeroGpu
           (invalidReplicas (annotated "GPU-2") 0)).
  - reflexivity.
  - intros g' d' [<-|[<-|[]]] Hs; vm_compute in Hs; discriminate Hs.
  - reflexivity.
  - reflexivity.
  - intros d' [<-|[]]. left. reflexivity.
  - reflexivity.
  - reflexivity.
Defined.

Lemma Daemons_concat_witness :
  manager_Daemons (managerOver ([gpu0; gpu1; gpu3], None))
  = match snd (value (manager_Daemons (managerOver ([gpu0; gpu1], None)))) with
    | Some _ => manager_Daemons (managerOver ([gpu0; gpu1], None))
    | None =>
        (records (manager_Daemons (managerOver ([gpu0; gpu1], None)))
         ++ records (manager_Daemons (managerOver ([gpu3], None))),
         match snd (value (manager_Daemons (managerOver ([gpu3], None)))) with
         | Some e => ([], Some e)
         | None => (fst (value (manager_Daemons (managerOver ([gpu0; gpu1], None))))
                    ++ fst (value (manager_Daemons (managerOver ([gpu3], None)))),
                    None)
         end)
    end.
Proof.
  apply (@Daemons_concat stub (managerOver ([gpu0; gpu1], None))
           (managerOver ([gpu3], None))
           (managerOver ([gpu0; gpu1; gpu3], None)) [gpu0; gpu1] [gpu3]);
    reflexivity.
Defined.

Lemma Daemons_daemon_invariant_witness :
  root (NewDaemon gpu0 "/mps") = "/mps"
  /\ In (rm (NewDaemon gpu0 "/mps")) [gpu0; gpu1]
  /\ Devices (rm (NewDaemon gpu0 "/mps")) <> []
  /\ (exists d, In d (Devices (rm (NewDaemon gpu0 "/mps")))
                /\ HasAnnotations (ID d) = true)
  /\ (forall d, In d (Devices (rm (NewDaemon gpu0 "/mps"))) ->
                IsMigDevice d = false -> assertReplicas d = None).
Proof.
  apply (@Daemons_daemon_invariant stub (managerOver ([gpu0; gpu1], None))
           [gpu0; gpu1] (NewDaemon gpu0 "/mps")).
  - reflexivity.
  - simpl. left. reflexivity.
Defined.

Lemma Daemons_log_records_witness :
  (exists g, In g [gpuNone; gpu0] /\ Devices g = []
             /\ klog_InfoS msgNoDevices [arg_string "resource"; arg_string "none"]
                = klog_InfoS msgNoDevices
                    [arg_string "resource"; arg_string (Resource g)])
  \/ (exists g, In g [gpuNone; gpu0] /\ Devices g <> []
                /\ AnyHasAnnotations (AnnotatedIDs (GetIDs (Devices g))) = false
                /\ klog_InfoS msgNoDevices [arg_string "resource"; arg_string "none"]
                   = klog_InfoS msgNotShared
                       [arg_string "resource"; arg_string "resource";
                        arg_string (Resource g)])
  \/ (exists g d, In g [gpuNone; gpu0] /\ In d (Devices g) /\ IsMigDevice d = true
                  /\ klog_InfoS msgNoDevices [arg_string "resource"; arg_string "none"]
                     = klog_Warning msgMig).
Proof.
  apply (@Daemons_log_records stub (managerOver ([gpuNone; gpu0], None))
           [gpuNone; gpu0]
           (klog_InfoS msgNoDevices [arg_string "resource"; arg_string "none"])).
  - reflexivity.
  - simpl. left. reflexivity.
Defined.

Lemma Daemons_accounting_witness :
  List.length (fst (value (manager_Daemons
                             (managerOver ([gpu0; gpuNone; gpu1; gpu3], None)))))
  + List.length (filter isInfoS
                   (records (manager_Daemons
                               (managerOver ([gpu0; gpuNone; gpu1; gpu3], None)))))
  = 4.
Proof.
  apply (@Daemons_accounting stub
           (managerOver ([gpu0; gpuNone; gpu1; gpu3], None))
           [gpu0; gpuNone; gpu1; gpu3]); reflexivity.
Defined.

Lemma Daemons_warning_count_witness :
  filter isWarning
    (records (manager_Daemons (managerOver ([gpu0Mig; gpuNone; gpu3], None))))
  = [klog_Warning msgMig; klog_Warning msgMig].
Proof.
  apply (@Daemons_warning_count stub
           (managerOver ([gpu0Mig; gpuNone; gpu3], None))
           [gpu0Mig; gpuNone; gpu3]); reflexivity.
Defined.

Lemma Daemons_error_ignores_names_witness :
  snd (value (manager_Daemons (managerOver ([gpu0; gpu2], None))))
  = snd (value (manager_Daemons (managerOver ([gpu0; gpu2Renamed], None)))).
Proof.
  apply (@Daemons_error_ignores_names stub
           (managerOver ([gpu0; gpu2], None))
           (managerOver ([gpu0; gpu2Renamed], None))
           [gpu0; gpu2] [gpu0; gpu2Renamed]); reflexivity.
Defined.

Lemma NewDaemons_MPS_witness :
  @NewDaemons stub tt ([gpu0; gpu1], None) tt [storeConfig mpsConfig]
  = (records (manager_Daemons
                (applyOptions [storeConfig mpsConfig]
                              (@bare stub tt ([gpu0; gpu1], None) tt))),
     Returned (value (manager_Daemons
                        (applyOptions [storeConfig mpsConfig]
                                      (@bare stub tt ([gpu0; gpu1], None) tt))))).
Proof.
  apply (@NewDaemons_MPS stub tt ([gpu0; gpu1], None) tt
           [storeConfig mpsConfig] mpsConfig); reflexivity.
Defined.

Lemma NewDaemons_not_MPS_witness :
  @NewDaemons stub tt ([gpu2], None) tt [storeConfig timeSlicingConfig]
  = ([klog_InfoS msgNotMPS
        [arg_string "strategy"; arg_strategy SharingStrategyTimeSlicing]],
     Returned ([], None)).
Proof.
  apply (@NewDaemons_not_MPS stub tt ([gpu2], None) tt
           [storeConfig timeSlicingConfig] timeSlicingConfig).
  - reflexivity.
  - simpl. discriminate.
Defined.

End Mps.

(** * Properties of the release script *)
Module ReleaseFacts.
Import Release.
Local Open Scope string_scope.


Lemma append_associative (a b c : string) : (a ++ b) ++ c = a ++ (b ++ c).
Proof. induction a as [|x a IH]; simpl; [reflexivity | rewrite IH; reflexivity]. Qed.


Lemma isEmpty_spec (s : string) : isEmpty s = true <-> s = EmptyString.
Proof. destruct s; simpl; split; intros H; try reflexivity; discriminate. Qed.

Lemma matches_Empty (s : string) : matches Empty s = false.
Proof. induction s as [|c s IH]; simpl; [reflexivity | exact IH]. Qed.

Lemma matches_Eps (s : string) : matches Eps s = isEmpty s.
Proof. destruct s; simpl; [reflexivity | apply matches_Empty]. Qed.

Lemma matches_Alt (s : string) :
  forall r1 r2, matches (Alt r1 r2) s = matches r1 s || matches r2 s.
Proof. induction s as [|c s IH]; intros r1 r2; simpl; [reflexivity | apply IH]. Qed.

Lemma matches_Group (n : nat) (r : regex) (s : string) :
  matches (Group n r) s = matches r s.
Proof. destruct s; reflexivity. Qed.

Lemma matches_Chr (p : ascii -> bool) (s : string) :
  matches (Chr p) s = match s with
                      | String c EmptyString => p c
                      | _ => false
                      end.
Proof.
  destruct s as [|c s]; simpl; [reflexivity|].
  destruct (p c).
  - rewrite matches_Eps. destruct s; reflexivity.
  - rewrite matches_Empty. destruct s; reflexivity.
Qed.

Lemma matches_Cat_Empty (r : regex) (s : string) : matches (Cat Empty r) s = false.
Proof. induction s as [|c s IH]; simpl; [reflexivity | exact IH]. Qed.

Lemma matches_Cat_Eps (r : regex) (s : string) : matches (Cat Eps r) s = matches r s.
Proof.
  destruct s as [|c s]; simpl; [reflexivity|].
  rewrite matches_Alt, matches_Cat_Empty. reflexivity.
Qed.

Lemma existsb_mapped {A B : Type} (f : B -> bool) (g : A -> B) (l : list A) :
  existsb f (map g l) = existsb (fun a => f (g a)) l.
Proof. induction l as [|a l IH]; simpl; [reflexivity | rewrite IH; reflexivity]. Qed.

Lemma matches_Cat_splits (r2 : regex) (s : string) :
  forall r1,
    matches (Cat r1 r2) s
    = existsb (fun p => matches r1 (fst p) && matches r2 (snd p)) (splits s).
Proof.
  induction s as [|c s IH]; intros r1; simpl.
  - rewrite orb_false_r. reflexivity.
  - rewrite existsb_app, existsb_mapped. simpl. rewrite orb_false_r.
    destruct (nullable r1); simpl.
    + rewrite matches_Alt, IH. reflexivity.
    + rewrite IH, orb_false_r. reflexivity.
Qed.

Lemma splits_spec (s : string) :
  forall a b, In (a, b) (splits s) <-> s = a ++ b.
Proof.
  induction s as [|c s IH]; intros a b; simpl.
  - split.
    + intros [[= <- <-]|[]]. reflexivity.
    + destruct a; simpl; [intros <-; left; reflexivity | discriminate].
  - rewrite in_app_iff, in_map_iff. simpl. split.
    + intros [[[a' b'] [[= <- <-] Hin]]|[[= <- <-]|[]]].
      * simpl. f_equal. apply IH, Hin.
      * reflexivity.
    + destruct a as [|x a]; simpl.
      * intros <-. right. left. reflexivity.
      * intros [= <- ->]. left. exists (a, b). split; [reflexivity|].
        apply IH. reflexivity.
Qed.

Lemma matches_Cat (r1 r2 : regex) (s : string) :
  matches (Cat r1 r2) s = true <->
  exists a b, s = a ++ b /\ matches r1 a = true /\ matches r2 b = true.
Proof.
  rewrite matches_Cat_splits, existsb_exists. split.
  - intros [[a b] [Hin H]]. apply andb_true_iff in H. simpl in H.
    exists a, b. split; [apply splits_spec, Hin | exact H].
  - intros [a [b [Hs [H1 H2]]]]. exists (a, b). split; [apply splits_spec, Hs|].
    simpl. rewrite H1, H2. reflexivity.
Qed.


Lemma matches_Star_Chr (p : ascii -> bool) (s : string) :
  matches (Star (Chr p)) s = every p s.
Proof.
  induction s as [|c s IH]; simpl; [reflexivity|].
  destruct (p c); simpl.
  - rewrite matches_Cat_Eps. exact IH.
  - apply matches_Cat_Empty.
Qed.

Lemma matches_Plus_Chr (p : ascii -> bool) (s : string) :
  matches (Plus (Chr p)) s = negb (isEmpty s) && every p s.
Proof.
  destruct s as [|c s]; simpl; [reflexivity|].
  destruct (p c); simpl.
  - rewrite matches_Cat_Eps. apply matches_Star_Chr.
  - apply matches_Cat_Empty.
Qed.


Lemma matches_lit (x : ascii) (s : string) :
  matches (Chr (lit x)) s = true <-> s = String x EmptyString.
Proof.
  rewrite matches_Chr. unfold lit. destruct s as [|c [|d s]]; split; intros H;
    try discriminate.
  - apply Ascii.eqb_eq in H. rewrite H. reflexivity.
  - injection H as <-. apply Ascii.eqb_refl.
Qed.

Lemma find_existsb {A : Type} (f : A -> bool) (l : list A) :
  existsb f l = true -> exists a, find f l = Some a /\ In a l /\ f a = true.
Proof.
  induction l as [|x l IH]; simpl; [discriminate|].
  destruct (f x) eqn:Hx; simpl.
  - intros _. exists x. repeat split; [left; reflexivity | exact Hx].
  - intros H. destruct (IH H) as [a [Hf [Hin Ha]]].
    exists a. repeat split; [exact Hf | right; exact Hin | exact Ha].
Qed.

Lemma cut_some (r1 r2 : regex) (s : string) :
  matches (Cat r1 r2) s = true ->
  exists a b, cut r1 r2 s = Some (a, b) /\ s = a ++ b
              /\ matches r1 a = true /\ matches r2 b = true.
Proof.
  rewrite matches_Cat_splits. intros H.
  destruct (find_existsb _ _ H) as [[a b] [Hf [Hin Hab]]].
  apply andb_true_iff in Hab. simpl in Hab.
  exists a, b. split; [exact Hf|]. split; [apply splits_spec, Hin | exact Hab].
Qed.

Lemma lastRound_plain (cap : string -> list (nat * string)) (r : regex) :
  (forall a, cap a = []) ->
  forall fuel s, lastRound cap r fuel s = [].
Proof.
  intros Hcap. induction fuel as [|fuel IH]; intros s; simpl; [reflexivity|].
  destruct (find _ (splits s)) as [[a b]|]; [|reflexivity].
  destruct (isEmpty b); [apply Hcap | apply IH].
Qed.

Lemma capture_plain (r : regex) :
  subexpressions r = 0 -> forall s, capture r s = [].
Proof.
  induction r as [| |p|r1 IH1 r2 IH2|r1 IH1 r2 IH2|r IH|n r IH]; simpl; intros H s;
    try reflexivity.
  - destruct (cut r1 r2 s) as [[a b]|]; [|reflexivity].
    rewrite IH1, IH2 by lia. reflexivity.
  - destruct (matches r1 s); [apply IH1 | apply IH2]; lia.
  - apply lastRound_plain. intros a. apply IH, H.
  - discriminate.
Qed.

Lemma capture_Cat (r1 r2 : regex) (s a b : string) :
  cut r1 r2 s = Some (a, b) ->
  capture (Cat r1 r2) s = (capture r1 a ++ capture r2 b)%list.
Proof. intros H. simpl. rewrite H. reflexivity. Qed.

Lemma rematch_element (r : regex) (s : string) (n : nat) :
  1 <= n <= subexpressions r ->
  element n (rematch r s) = assoc n (capture r s).
Proof.
  intros [H1 H2]. unfold element, rematch.
  destruct n as [|k]; [lia|]. simpl.
  rewrite (nth_indep _ EmptyString (assoc 0 (capture r s)))
    by (rewrite length_map, length_seq; lia).
  rewrite (map_nth (fun n => assoc n (capture r s))).
  rewrite seq_nth by lia. reflexivity.
Qed.

Lemma rematch_plain (r : regex) (s : string) :
  subexpressions r = 0 -> rematch r s = [s].
Proof. intros H. unfold rematch. rewrite H. reflexivity. Qed.

(** What a match of [semver_regex] says of the version and its fields. *)
Lemma semver_fields (v : string) :
  matches semver_regex v = true ->
  exists a1 a2 a3 rest,
    v = "v" ++ a1 ++ "." ++ a2 ++ "." ++ a3 ++ rest
    /\ matches numeric_regex a1 = true
    /\ matches numeric_regex a2 = true
    /\ matches numeric_regex a3 = true
    /\ (rest = EmptyString \/ exists pre, rest = "-" ++ pre)
    /\ element 1 (rematch semver_regex v) = a1
    /\ element 2 (rematch semver_regex v) = a2
    /\ element 3 (rematch semver_regex v) = a3.
Proof.
  intros H.
  rewrite !rematch_element by (simpl; lia).
  unfold semver_regex in *.
  apply cut_some in H. destruct H as [a0 [b0 [C0 [E0 [M0 H]]]]].
  apply cut_some in H. destruct H as [a1 [b1 [C1 [E1 [M1 H]]]]].
  apply cut_some in H. destruct H as [d1 [b2 [C2 [E2 [M2 H]]]]].
  apply cut_some in H. destruct H as [a2 [b3 [C3 [E3 [M3 H]]]]].
  apply cut_some in H. destruct H as [d2 [b4 [C4 [E4 [M4 H]]]]].
  apply cut_some in H. destruct H as [a3 [rest [C5 [E5 [M5 H]]]]].
  rewrite (capture_Cat _ _ _ _ _ C0), (capture_Cat _ _ _ _ _ C1),
    (capture_Cat _ _ _ _ _ C2), (capture_Cat _ _ _ _ _ C3),
    (capture_Cat _ _ _ _ _ C4), (capture_Cat _ _ _ _ _ C5).
  apply matches_lit in M0, M2, M4. subst a0 d1 d2.
  rewrite matches_Group in M1, M3, M5.
  exists a1, a2, a3, rest.
  split; [subst; reflexivity|].
  repeat (split; [assumption|]).
  split.
  - unfold Opt in H. rewrite matches_Alt, matches_Eps, matches_Group in H.
    apply orb_true_iff in H. destruct H as [H|H].
    + right. apply matches_Cat in H. destruct H as [h [pre [Er [Mh Mp]]]].
      apply matches_lit in Mh. subst h. exists pre. exact Er.
    + left. apply isEmpty_spec, H.
  - change (capture (Group 1 (Plus (Chr digit))) a1)
      with ((1, a1) :: capture (Plus (Chr digit)) a1).
    change (capture (Group 2 (Plus (Chr digit))) a2)
      with ((2, a2) :: capture (Plus (Chr digit)) a2).
    change (capture (Group 3 (Plus (Chr digit))) a3)
      with ((3, a3) :: capture (Plus (Chr digit)) a3).
    rewrite !(capture_plain (Plus (Chr digit))) by reflexivity.
    rewrite !(capture_plain (Chr _)) by reflexivity.
    simpl. repeat split; reflexivity.
Qed.


Lemma numeric_regex_spec (s : string) :
  matches numeric_regex s = true <-> numeric s.
Proof.
  unfold numeric_regex, numeric. rewrite matches_Plus_Chr, andb_true_iff.
  rewrite negb_true_iff. split; intros [H1 H2]; split; try assumption.
  - intros ->. discriminate.
  - destruct s; [contradiction | reflexivity].
Qed.

Lemma validate_semver_rejects (version : string) (sh : shell) :
  matches semver_regex version = false ->
  validate_semver version sh = (1, rejected version sh).
Proof.
  intros H. unfold validate_semver, regex_match. rewrite H. reflexivity.
Qed.

Lemma validate_semver_accepts (version : string) (sh : shell) :
  matches semver_regex version = true ->
  exists a1 a2 a3 rest,
    version = "v" ++ a1 ++ "." ++ a2 ++ "." ++ a3 ++ rest
    /\ numeric a1 /\ numeric a2 /\ numeric a3
    /\ (rest = EmptyString \/ exists pre, rest = "-" ++ pre)
    /\ validate_semver version sh = (0, accepted version a1 a2 a3 sh).
Proof.
  intros H.
  destruct (semver_fields _ H) as [a1 [a2 [a3 [rest [Ev [M1 [M2 [M3 [Hr [E1 [E2 E3]]]]]]]]]]].
  exists a1, a2, a3, rest.
  split; [exact Ev|].
  split; [apply numeric_regex_spec, M1|].
  split; [apply numeric_regex_spec, M2|].
  split; [apply numeric_regex_spec, M3|].
  split; [exact Hr|].
  unfold validate_semver, regex_match. rewrite H.
  cbv [set_BASH_REMATCH set_major set_minor set_patch set_prerelease echo
       BASH_REMATCH major minor patch prerelease stdout negb].
  rewrite E1, E2, E3, M1, M2, M3.
  rewrite (rematch_plain numeric_regex) by reflexivity.
  reflexivity.
Qed.













(** ** The theorems on [validate_semver] *)




(** X14: when [validate_semver] does not return 0, it leaves [major],
    [minor] and [patch] as they were, whatever an earlier call stored in
    them, and [BASH_REMATCH] empty. *)
Theorem validate_semver_rejection (version : string) (sh : shell) :
  fst (validate_semver version sh) <> 0 ->
  major (snd (validate_semver version sh)) = major sh
  /\ minor (snd (validate_semver version sh)) = minor sh
  /\ patch (snd (validate_semver version sh)) = patch sh
  /\ BASH_REMATCH (snd (validate_semver version sh)) = [].
Proof.
  destruct (matches semver_regex version) eqn:M.
  - destruct (validate_semver_accepts version sh M)
      as [a1 [a2 [a3 [rest [_ [_ [_ [_ [_ E]]]]]]]]].
    rewrite E. simpl. intros H. contradiction H. reflexivity.
  - rewrite (validate_semver_rejects version sh M). simpl. intros _.
    repeat split; reflexivity.
Qed.

(** X15: [validate_semver] never assigns [prerelease]: the tests of line
    46 have replaced [BASH_REMATCH] before line 52 reads its element 5,
    which is then empty. *)
Theorem validate_semver_prerelease (version : string) (sh : shell) :
  prerelease (snd (validate_semver version sh)) = prerelease sh
  /\ element 5 (BASH_REMATCH (snd (validate_semver version sh))) = EmptyString.
Proof.
  destruct (matches semver_regex version) eqn:M.
  - destruct (validate_semver_accepts version sh M)
      as [a1 [a2 [a3 [rest [_ [_ [_ [_ [_ E]]]]]]]]].
    rewrite E. split; reflexivity.
  - rewrite (validate_semver_rejects version sh M). split; reflexivity.
Qed.

(** X16: [validate_semver] prints one line, "Valid SemVer format: " and
    the version when it returns 0, "Invalid SemVer format: " and the version
    otherwise. *)
Theorem validate_semver_output (version : string) (sh : shell) :
  stdout (snd (validate_semver version sh))
  = (stdout sh
     ++ [if (fst (validate_semver version sh) =? 0)%nat
         then ("Valid SemVer format: " ++ version)%string
         else ("Invalid SemVer format: " ++ version)%string])%list.
Proof.
  destruct (matches semver_regex version) eqn:M.
  - destruct (validate_semver_accepts version sh M)
      as [a1 [a2 [a3 [rest [_ [_ [_ [_ [_ E]]]]]]]]].
    rewrite E. reflexivity.
  - rewrite (validate_semver_rejects version sh M). reflexivity.
Qed.



(** ** The option loop *)

Lemma last_consed (v : string) (vs : list string) (d : string) :
  last (v :: vs) d = last vs v.
Proof.
  revert v d. induction vs as [|x vs IH]; intros v d; [reflexivity|].
  change (last (v :: x :: vs) d) with (last (x :: vs) d).
  rewrite !IH. reflexivity.
Qed.

Lemma shift_subset (n : nat) (args : list string) (x : string) :
  In x (shift n args) -> In x args.
Proof.
  unfold shift. destruct (n <=? List.length args)%nat; [|trivial].
  revert args. induction n as [|n IH]; intros args; simpl; [trivial|].
  destruct args as [|a args]; [trivial|]. intros H. right. apply IH, H.
Qed.

(** X18: on parameters that are pairs "--previous-version v" followed by
    parameters that do not begin with that option, the loop ends, with
    enough fuel: on [usage] when the next parameter is "--help/-h", and else
    with the last [v] given (or the value it started from) and the
    parameters after the pairs. *)
Theorem parse_options_stops (vs rest : list string) :
  forall (fuel : nat) (previous_version : string),
    hd EmptyString rest <> "--previous-version" ->
    List.length vs < fuel ->
    parse_options fuel previous_version (optionPairs vs ++ rest)%list
    = Some (if (hd EmptyString rest =? "--help/-h")%string then Usage
            else Remaining (last vs previous_version) rest).
Proof.
  induction vs as [|v vs IH]; intros fuel pv Hrest Hfuel.
  - destruct fuel as [|fuel]; [simpl in Hfuel; lia|].
    simpl. destruct rest as [|r rest]; [reflexivity|]. simpl in *.
    apply String.eqb_neq in Hrest. rewrite Hrest.
    destruct (r =? "--help/-h")%string; reflexivity.
  - destruct fuel as [|fuel]; [simpl in Hfuel; lia|].
    simpl in Hfuel. rewrite last_consed. simpl.
    apply IH; [exact Hrest | lia].
Qed.

(** X19: when "--previous-version" is the last parameter, with no value
    after it, the loop is never left, whatever the fuel: [shift 2] fails and
    the parameter stays. *)
Theorem parse_options_hangs (fuel : nat) :
  forall (vs : list string) (previous_version : string),
    parse_options fuel previous_version
      (optionPairs vs ++ ["--previous-version"])%list = None.
Proof.
  induction fuel as [|fuel IH]; intros vs pv; [reflexivity|].
  destruct vs as [|v vs]; simpl.
  - apply (IH [] EmptyString).
  - apply IH.
Qed.

(** X20: the loop shows [usage] only when the parameter "--help/-h" is
    given as it is written. *)
Theorem parse_options_usage (fuel : nat) :
  forall (previous_version : string) (args : list string),
    parse_options fuel previous_version args = Some Usage ->
    In "--help/-h" args.
Proof.
  induction fuel as [|fuel IH]; intros pv args; simpl; [discriminate|].
  destruct args as [|key args]; [discriminate|].
  destruct (key =? "--previous-version")%string eqn:K.
  - intros H. apply IH in H. apply shift_subset in H. exact H.
  - destruct (key =? "--help/-h")%string eqn:Hh; [|discriminate].
    intros _. left. apply String.eqb_eq in Hh. exact Hh.
Qed.


(** ** The theorems at sample inputs *)


Lemma validate_semver_rejection_witness :
  major (snd (validate_semver "0.15.0" used)) = "0"
  /\ minor (snd (validate_semver "0.15.0" used)) = "14"
  /\ patch (snd (validate_semver "0.15.0" used)) = "0"
  /\ BASH_REMATCH (snd (validate_semver "0.15.0" used)) = [].
Proof.
  apply (validate_semver_rejection "0.15.0" used). simpl. discriminate.
Defined.


Lemma parse_options_stops_witness :
  parse_options 3 "v0.13.0"
    (optionPairs ["v0.14.0"; "v0.14.1"] ++ ["-h"; "v0.15.0"])%list
  = Some (if (hd EmptyString ["-h"; "v0.15.0"] =? "--help/-h")%string then Usage
          else Remaining (last ["v0.14.0"; "v0.14.1"] "v0.13.0")
                         ["-h"; "v0.15.0"]).
Proof.
  apply (parse_options_stops ["v0.14.0"; "v0.14.1"] ["-h"; "v0.15.0"] 3 "v0.13.0").
  - simpl. discriminate.
  - simpl. lia.
Defined.

Lemma parse_options_usage_witness :
  In "--help/-h" ["--previous-version"; "v0.14.0"; "--help/-h"].
Proof.
  apply (parse_options_usage 2 "v0.13.0"
           ["--previous-version"; "v0.14.0"; "--help/-h"]).
  reflexivity.
Defined.

End ReleaseFacts.
